(** * Room booking scheduler: recurrence, conflicts, series edits, weekly grid

    A shallow embedding of [app.py] (the Flask handlers [new_booking],
    [edit_booking], [index], [api_bookings] and the helpers
    [week_bounds], [get_series_occurrences], [infer_series_pattern]).

    Conventions of the embedding:
    - a [date] is its proleptic Gregorian ordinal ([date.toordinal()]); the
      calendar runs from [date.min] (ordinal 1) to [date.max] (9999-12-31),
      and [d + timedelta(days=n)] raises OverflowError when it leaves it: no
      handler catches that exception, so the request is answered with a
      server error and nothing is committed;
    - a [datetime] is a date and a time of day, compared component-wise as
      Python does;
    - the [booking] table is the list of its rows in storage order plus the
      next primary key; queries read the session's current view (SQLAlchemy
      autoflush), [filter] is a WHERE clause, [first()] is the head;
    - a comparison on the nullable column [series_id] follows SQL's
      three-valued logic;
    - the handlers are modelled on their POST branch for a logged-in
      account; form fields arrive already classified as absent, malformed
      or parsed. *)

From stdpp Require Import base numbers list gmap strings sorting.

Open Scope Z_scope.

(** ** Dates and instants *)

Module Calendar.

Definition date := Z.
Definition time := Z.   (* microseconds since midnight *)

(* date.weekday(): Monday is 0; ordinal 1 (0001-01-01) is a Monday *)
Definition weekday (d : date) : Z := (d + 6) `mod` 7.

Record datetime := DateTime { dt_date : date; dt_time : time }.

(* datetime.combine(d, t) *)
Definition combine (d : date) (t : time) : datetime := DateTime d t.

(* datetime.min.time() and datetime.max.time() *)
Definition time_min : time := 0.
Definition time_max : time := 86399999999.

Definition dt_lt (a b : datetime) : Prop :=
  dt_date a < dt_date b ∨ (dt_date a = dt_date b ∧ dt_time a < dt_time b).

Definition dt_le (a b : datetime) : Prop :=
  dt_date a < dt_date b ∨ (dt_date a = dt_date b ∧ dt_time a ≤ dt_time b).

#[export] Instance dt_lt_dec : RelDecision dt_lt.
Proof. unfold dt_lt. solve_decision. Defined.

#[export] Instance dt_le_dec : RelDecision dt_le.
Proof. unfold dt_le. solve_decision. Defined.

#[export] Instance datetime_eq_dec : EqDecision datetime.
Proof. solve_decision. Defined.

(* a time of day that a real datetime can carry *)
Definition valid_time (t : time) : Prop := time_min ≤ t ≤ time_max.

(* 2024-01-01, a Monday, as an ordinal *)
Definition d2024_01_01 : date := 738886.

(* date.min (0001-01-01) and date.max (9999-12-31) as ordinals *)
Definition date_min : date := 1.
Definition date_max : date := 3652059.

(* an ordinal that a real date can carry *)
Definition valid_date (d : date) : Prop := date_min ≤ d ≤ date_max.

(* d + timedelta(days=n); None is OverflowError('date value out of range') *)
Definition date_add (d : date) (n : Z) : option date :=
  if decide (date_min ≤ d + n ≤ date_max) then Some (d + n) else None.

End Calendar.
Export Calendar.

(** ** The booking table *)

Module Store.

(* class Booking(db.Model); created_at plays no role in any operation *)
Record Booking := mkBooking {
  b_id : Z;
  b_room : string;
  b_title : string;
  b_account : string;
  b_who : option string;
  b_start : datetime;
  b_end : datetime;
  b_series_id : option string
}.

#[export] Instance Booking_eq_dec : EqDecision Booking.
Proof. solve_decision. Defined.

Record database := mkDb { rows : list Booking; next_id : Z }.

(* db.session.add(Booking(...)): the row gets the next primary key *)
Definition db_add (room title account : string) (who : option string)
           (sdt edt : datetime) (series : option string) (db : database) : database :=
  {| rows := rows db ++ [mkBooking (next_id db) room title account who sdt edt series];
     next_id := next_id db + 1 |}.

(* db.session.delete(occ): the row with that primary key goes *)
Definition db_delete (occ : Booking) (db : database) : database :=
  {| rows := filter (λ r, b_id r ≠ b_id occ) (rows db); next_id := next_id db |}.

(* Query.first() *)
Definition first {A} (q : list A) : option A := head q.

(* Booking.query.get(booking_id) *)
Definition get (booking_id : Z) (db : database) : option Booking :=
  first (filter (λ r, b_id r = booking_id) (rows db)).

(* .order_by(Booking.start.asc()) *)
Definition start_le (a b : Booking) : Prop := dt_le (b_start a) (b_start b).

#[export] Instance start_le_dec : RelDecision start_le.
Proof. unfold start_le. solve_decision. Defined.

Definition order_by_start (q : list Booking) : list Booking := merge_sort start_le q.

(** SQL comparisons on the nullable column [series_id]: NULL compared with
    anything is UNKNOWN ([None]); a WHERE clause keeps a row only when its
    condition is TRUE. *)
Definition sql_eq (col : option string) (v : string) : option bool :=
  (λ x, bool_decide (x = v)) <$> col.
Definition sql_ne (col : option string) (v : string) : option bool :=
  (λ x, bool_decide (x ≠ v)) <$> col.
Definition sql_true (c : option bool) : Prop := c = Some true.

#[export] Instance sql_true_dec c : Decision (sql_true c).
Proof. unfold sql_true. solve_decision. Defined.

End Store.
Export Store.

(** ** Recurrence pattern engine *)

Module Recurrence.

(* the loop shared by new_booking and edit_booking:
     while cur <= end_date:
         if cur.weekday() in weekdays: dates.append(cur)
         cur += timedelta(days=1)
   [fuel] bounds the number of iterations; None is the OverflowError of the
   increment, raised when the loop body runs on date.max *)
Fixpoint while_days (fuel : nat) (cur end_date : date) (weekdays : gset Z)
         (dates : list date) : option (list date) :=
  match fuel with
  | O => Some dates
  | S fuel' =>
      if decide (cur ≤ end_date) then
        let dates := if decide (weekday cur ∈ weekdays) then dates ++ [cur] else dates in
        match date_add cur 1 with
        | Some cur => while_days fuel' cur end_date weekdays dates
        | None => None
        end
      else Some dates
  end.

(* the number of iterations the loop makes from [cur] *)
Definition span (cur end_date : date) : nat := Z.to_nat (end_date - cur + 1).

(* edit_booking, "Build new dates (inclusive)"; None when the loop raises *)
Definition expand (anchor : date) (weekdays : gset Z) (end_date : date)
  : option (list date) :=
  while_days (span anchor end_date) anchor end_date weekdays [].

(* min(dates), max(dates) on a non-empty list *)
Definition min_date (d : date) (ds : list date) : date := foldl Z.min d ds.
Definition max_date (d : date) (ds : list date) : date := foldl Z.max d ds.

Definition infer_series_pattern (occ_list : list Booking)
  : option date * gset Z * option date :=
  match (λ o, dt_date (b_start o)) <$> occ_list with
  | [] => (None, ∅, None)
  | d :: ds =>
      (Some (min_date d ds), list_to_set (weekday <$> (d :: ds)), Some (max_date d ds))
  end.

(* get_series_occurrences: filter_by(series_id=...).order_by(start) *)
Definition get_series_occurrences (series_id : string) (db : database) : list Booking :=
  order_by_start (filter (λ r, sql_true (sql_eq (b_series_id r) series_id)) (rows db)).

(** The walk as §4.2 words it: every calendar date from the anchor to the
    end date inclusive, kept when its weekday is in the set, ascending.
    (§4.2 has no failing case.) *)
Definition spec_expand (anchor : date) (weekdays : gset Z) (end_date : date) : list date :=
  filter (λ d, weekday d ∈ weekdays) (seqZ anchor (end_date - anchor + 1)).

End Recurrence.
Export Recurrence.

(** ** Requests and responses *)

Module Http.

(* a form or query-string value: missing or empty, present but rejected by
   its parser (ValueError), or parsed *)
Inductive field (A : Type) : Type :=
| Absent
| Malformed
| Parsed (a : A).
Arguments Absent {A}.
Arguments Malformed {A}.
Arguments Parsed {A} a.

(* truthiness of the raw string *)
Definition given {A} (f : field A) : Prop :=
  match f with Absent => False | _ => True end.

#[export] Instance given_dec {A} (f : field A) : Decision (given f).
Proof. destruct f; simpl; apply _. Defined.

Record booking_form := mkForm {
  f_room : option string;            (* request.form.get('room') *)
  f_title : string;                  (* stripped *)
  f_who : string;                    (* stripped *)
  f_date : field date;               (* '%Y-%m-%d' *)
  f_start_time : field time;         (* '%H:%M' *)
  f_end_time : field time;           (* '%H:%M' *)
  f_repeat_days : list (option Z);   (* getlist('repeat_days'), each through int() *)
  f_repeat_end : field date          (* '%Y-%m-%d' *)
}.

Inductive response : Type :=
| NotFound                                   (* get_or_404 *)
| ServerError                                (* uncaught exception *)
| InvalidRoom                                (* 'Ongeldige ruimte.' *)
| MissingFields                              (* 'Titel, datum, start en eindtijd zijn verplicht.' *)
| BadDateOrTime                              (* 'Ongeldige datum of tijd.' *)
| EndNotAfterStart                           (* 'Eindtijd moet na starttijd liggen.' *)
| BadRepeatEnd                               (* 'Ongeldige einddatum voor herhaling.' *)
| BadRepeatDays                              (* 'Ongeldige weekdagen voor herhaling.' *)
| NoRepeatDay                                (* 'Kies minimaal één herhalingsdag.' *)
| EndBeforeAnchor                            (* 'Einddatum ligt vóór de start van de reeks.' *)
| Created (created : nat) (conflicts : list date)
                                             (* one 'Conflict: ...' flash per skipped date,
                                                then '{created} boeking(en) aangemaakt.' *)
| SeriesConflicts (conflicts : list date)    (* 'Conflicten op: ... Reeks niet gewijzigd.' *)
| SeriesUpdated (n : nat)                    (* 'Reeks bijgewerkt ({n} boekingen).' *)
| SingleConflict                             (* 'Conflict: er bestaat al een boeking in deze periode.' *)
| BookingUpdated.                            (* 'Boeking bijgewerkt.' *)

(* a handler runs until its first return *)
Definition exit (A : Type) : Type := response + A.

Definition reject {A} (r : response) : exit A := inl r.
Definition pass {A} (a : A) : exit A := inr a.
Definition andthen {A B} (m : exit A) (k : A → exit B) : exit B :=
  match m with inl r => inl r | inr a => k a end.
Definition require (c : Prop) `{Decision c} (r : response) : exit unit :=
  if decide c then inr tt else inl r.

Declare Scope exit_scope.
Delimit Scope exit_scope with exit.
Notation "'do' x <- m ; k" := (andthen m (λ x, k))
  (at level 10, x pattern, m at level 100, k at level 200) : exit_scope.
Notation "'check' c 'else' r ; k" := (andthen (require c r) (λ _, k))
  (at level 10, c at level 100, r at level 9, k at level 200) : exit_scope.

End Http.
Export Http.

(** ** The handlers *)

Module App.

Open Scope exit_scope.

Definition ROOMS : list string :=
  ["TMS ruimte"; "CO2 ruimte"; "Behandelruimte"; "Wetlab"]%string.

(* week_bounds; None is the OverflowError of [monday + timedelta(days=6)],
   raised for 9999-12-27 .. 9999-12-31.  The subtraction cannot leave the
   calendar: date.min is a Monday (lemma [monday_in_calendar]). *)
Definition week_bounds (start_date : date) : option (date * date) :=
  let monday := start_date - weekday start_date in
  sunday ← date_add monday 6;
  Some (monday, sunday).

(* [who or None] *)
Definition who_or_None (who : string) : option string :=
  if decide (who = EmptyString) then None else Some who.

(* set(int(d) for d in repeat_days); None when some int() raises *)
Definition int_set (repeat_days : list (option Z)) : option (gset Z) :=
  list_to_set <$> mapM id repeat_days.

(* The time part of every conflict filter:
     Booking.start < edt, Booking.end > sdt *)
Definition overlaps (b : Booking) (sdt edt : datetime) : Prop :=
  dt_lt (b_start b) edt ∧ dt_lt sdt (b_end b).

#[export] Instance overlaps_dec b sdt edt : Decision (overlaps b sdt edt).
Proof. unfold overlaps. solve_decision. Defined.

(* new_booking: filter(room == room, start < edt, end > sdt).first() *)
Definition create_conflict (room : string) (sdt edt : datetime) (db : database)
  : option Booking :=
  first (filter (λ r, b_room r = room ∧ overlaps r sdt edt) (rows db)).

(* edit_booking, series path:
     filter(room == room, series_id != b.series_id, start < edt, end > sdt).first() *)
Definition series_conflict (room series_id : string) (sdt edt : datetime) (db : database)
  : option Booking :=
  first (filter (λ r, b_room r = room ∧ sql_true (sql_ne (b_series_id r) series_id)
                      ∧ overlaps r sdt edt) (rows db)).

(* edit_booking, single path:
     filter(id != b.id, room == room, start < new_end, end > new_start).first() *)
Definition single_conflict (booking_id : Z) (room : string) (new_start new_end : datetime)
           (db : database) : option Booking :=
  first (filter (λ r, b_id r ≠ booking_id ∧ b_room r = room ∧ overlaps r new_start new_end)
                (rows db)).

(* "basic validation" and the parse of date and times, which new_booking and
   edit_booking both open with: the room test (new_booking flashes
   'Ongeldige ruimte.', edit_booking folds it into the required-fields
   test), the required fields, the three strptime calls under one
   try/except ValueError, and [end_dt <= start_dt] *)
Definition parse_slot (f : booking_form) (bad_room : response)
  : exit (string * datetime * datetime) :=
  do room <- match f_room f with
             | Some r => if decide (r ∈ ROOMS) then pass r else reject bad_room
             | None => reject bad_room
             end;
  check (f_title f ≠ EmptyString ∧ given (f_date f)
         ∧ given (f_start_time f) ∧ given (f_end_time f)) else MissingFields;
  match f_date f, f_start_time f, f_end_time f with
  | Parsed d, Parsed st, Parsed et =>
      let start_dt := combine d st in
      let end_dt := combine d et in
      check (¬ dt_le end_dt start_dt) else EndNotAfterStart;
      pass (room, start_dt, end_dt)
  | _, _, _ => reject BadDateOrTime
  end.

(* new_booking, "Build a list of dates to book (including recurrences)".
   The try block catches ValueError only: the OverflowError of
   [base_date + timedelta(days=1)] or of the loop's increment leaves the
   handler, and the request is answered with a server error. *)
Definition booking_dates (f : booking_form) (base_date : date) : exit (list date) :=
  if decide (f_repeat_days f ≠ [] ∧ given (f_repeat_end f)) then
    match f_repeat_end f with
    | Parsed repeat_end_date =>
        match int_set (f_repeat_days f) with
        | Some repeat_weekdays =>
            match date_add base_date 1 with
            | Some cur =>
                match while_days (span cur repeat_end_date) cur repeat_end_date
                                 repeat_weekdays [base_date] with
                | Some dates => pass dates
                | None => reject ServerError
                end
            | None => reject ServerError
            end
        | None => reject BadRepeatEnd
        end
    | _ => reject BadRepeatEnd
    end
  else pass [base_date].

(* the body of [for d in booking_dates] in new_booking *)
Definition book_one (room title account : string) (who : option string)
           (start_time end_time : time) (series_id : option string)
           (st : database * nat * list date) (d : date) : database * nat * list date :=
  let '(db, created, conflicts) := st in
  let sdt := combine d start_time in
  let edt := combine d end_time in
  match create_conflict room sdt edt db with
  | Some _ => (db, created, conflicts ++ [d])
  | None => (db_add room title account who sdt edt series_id db, S created, conflicts)
  end.

(* POST /book/new by account [me]; [fresh] is the value of str(uuid.uuid4()) *)
Definition new_booking (me fresh : string) (f : booking_form) (db : database)
  : database * response :=
  match
    do slot <- parse_slot f InvalidRoom;
    let '(room, start_dt, end_dt) := slot in
    do dates <- booking_dates f (dt_date start_dt);
    pass (room, start_dt, end_dt, dates)
  with
  | inl r => (db, r)
  | inr (room, start_dt, end_dt, dates) =>
      let series_id := if decide (1 < length dates)%nat then Some fresh else None in
      let '(db', created, conflicts) :=
        foldl (book_one room (f_title f) me (who_or_None (f_who f))
                        (dt_time start_dt) (dt_time end_dt) series_id)
              (db, O, []) dates in
      (db', Created created conflicts)
  end.

(* [if b.series_id:] a non-empty string *)
Definition truthy (series_id : option string) : option string :=
  match series_id with
  | Some sid => if decide (sid = EmptyString) then None else Some sid
  | None => None
  end.

(* edit_booking, "Pre-check conflicts vs other bookings (exclude this series)":
   the dates of [new_dates] for which the query finds a row *)
Definition series_conflicts (room series_id : string) (start_time end_time : time)
           (new_dates : list date) (db : database) : list date :=
  filter (λ d, is_Some (series_conflict room series_id
                          (combine d start_time) (combine d end_time) db)) new_dates.

(* edit_booking, "Delete old series" then "Create new series" *)
Definition replace_series (occs : list Booking) (room title : string) (who : option string)
           (account : string) (start_time end_time : time) (series_id : string)
           (new_dates : list date) (db : database) : database :=
  let db := foldl (λ db occ, db_delete occ db) db occs in
  foldl (λ db d, db_add room title account who
                   (combine d start_time) (combine d end_time) (Some series_id) db)
        db new_dates.

(* edit_booking, "SERIES EDIT"; the walk of the new dates comes before the
   pre-check and the writes, so when it raises nothing has been written *)
Definition edit_series (b : Booking) (series_id room : string) (new_start new_end : datetime)
           (f : booking_form) (db : database) : database * response :=
  let occs := get_series_occurrences series_id db in
  let '(anchor_date, current_days, current_end) := infer_series_pattern occs in
  match
    do repeat_weekdays <- match f_repeat_days f with
                          | [] => pass current_days
                          | _ => match int_set (f_repeat_days f) with
                                 | Some wds => pass wds
                                 | None => reject BadRepeatDays
                                 end
                          end;
    check (repeat_weekdays ≠ ∅) else NoRepeatDay;
    do new_series_end <- match f_repeat_end f with
                         | Parsed e => pass (Some e)
                         | Absent => pass current_end
                         | Malformed => reject BadRepeatEnd
                         end;
    match new_series_end, anchor_date with
    | None, _ => reject EndBeforeAnchor
    | Some e, None => reject ServerError          (* date < None raises TypeError *)
    | Some e, Some anchor =>
        check (¬ e < anchor) else EndBeforeAnchor;
        pass (anchor, repeat_weekdays, e)
    end
  with
  | inl r => (db, r)
  | inr (anchor, repeat_weekdays, new_series_end) =>
      match expand anchor repeat_weekdays new_series_end with
      | None => (db, ServerError)                 (* OverflowError *)
      | Some new_dates =>
          let conflicts := series_conflicts room series_id (dt_time new_start)
                                            (dt_time new_end) new_dates db in
          if decide (conflicts ≠ []) then (db, SeriesConflicts conflicts)
          else (replace_series occs room (f_title f) (who_or_None (f_who f)) (b_account b)
                               (dt_time new_start) (dt_time new_end) series_id new_dates db,
                SeriesUpdated (length new_dates))
      end
  end.

(* edit_booking, "SINGLE EDIT": the row is updated in place *)
Definition edit_single (b : Booking) (room : string) (new_start new_end : datetime)
           (f : booking_form) (db : database) : database * response :=
  match single_conflict (b_id b) room new_start new_end db with
  | Some _ => (db, SingleConflict)
  | None =>
      let update r :=
        if decide (b_id r = b_id b) then
          mkBooking (b_id r) room (f_title f) (b_account r) (who_or_None (f_who f))
                    new_start new_end (b_series_id r)
        else r in
      ({| rows := update <$> rows db; next_id := next_id db |}, BookingUpdated)
  end.

(* POST /book/edit/<booking_id> *)
Definition edit_booking (booking_id : Z) (f : booking_form) (db : database)
  : database * response :=
  match get booking_id db with
  | None => (db, NotFound)
  | Some b =>
      match parse_slot f MissingFields with
      | inl r => (db, r)
      | inr (room, new_start, new_end) =>
          match truthy (b_series_id b) with
          | Some series_id => edit_series b series_id room new_start new_end f db
          | None => edit_single b room new_start new_end f db
          end
      end
  end.

(* index: the bookings of the week, then "organize by room -> day" *)
Definition week_query (start_dt end_dt : datetime) (db : database) : list Booking :=
  order_by_start (filter (λ r, dt_le (b_start r) end_dt ∧ dt_le start_dt (b_end r)) (rows db)).

Definition empty_grid (week_start : date) : gmap string (gmap Z (list Booking)) :=
  list_to_map ((λ room, (room, list_to_map ((λ i, (week_start + i, [])) <$> seqZ 0 7)))
                 <$> ROOMS).

(* the body of [for b in bookings]; the guard makes both keys present, so
   the append never raises KeyError *)
Definition place (week_start week_end : date) (grid : gmap string (gmap Z (list Booking)))
           (b : Booking) : gmap string (gmap Z (list Booking)) :=
  let day_key := dt_date (b_start b) in
  if decide (is_Some (grid !! b_room b) ∧ week_start ≤ day_key ≤ week_end) then
    alter (alter (λ l, l ++ [b]) day_key) (b_room b) grid
  else grid.

Definition build_grid (week_start week_end : date) (bookings : list Booking)
  : gmap string (gmap Z (list Booking)) :=
  foldl (place week_start week_end) (empty_grid week_start) bookings.

(* index: prev_week and next_week, computed in this order; None is the
   OverflowError of the first addition that leaves the calendar *)
Definition week_links (week_start : date) : option (date * date) :=
  prev_week ← date_add week_start (-7);
  next_week ← date_add week_start 7;
  Some (prev_week, next_week).

(* what index hands to render_template *)
Record week_page := mkPage {
  page_week_start : date;
  page_week_end : date;
  page_grid : gmap string (gmap Z (list Booking));
  page_prev_week : date;
  page_next_week : date
}.

(* GET / for the start date [start_d], up to the call of render_template;
   None is an uncaught OverflowError.  In the grid comprehension
   [week_start + timedelta(days=i)] for i < 7 stays within [week_end]. *)
Definition index (start_d : date) (db : database) : option week_page :=
  '(week_start, week_end) ← week_bounds start_d;
  let start_dt := combine week_start time_min in
  let end_dt := combine week_end time_max in
  let grid := build_grid week_start week_end (week_query start_dt end_dt db) in
  '(prev_week, next_week) ← week_links week_start;
  Some (mkPage week_start week_end grid prev_week next_week).

(* what the template reads at grid[room][day]; empty where a key is missing *)
Definition bucket (grid : gmap string (gmap Z (list Booking))) (room : string) (day : date)
  : list Booking :=
  match grid !! room with
  | Some days => default [] (days !! day)
  | None => []
  end.

(* GET /api/bookings?start=..&end=.. ; the JSON list keeps the order of [items] *)
Definition api_bookings (start end_ : field datetime) (db : database) : list Booking :=
  let q := rows db in
  let q := match start with
           | Parsed sdt => filter (λ r, dt_le sdt (b_end r)) q
           | _ => q
           end in
  let q := match end_ with
           | Parsed edt => filter (λ r, dt_le (b_start r) edt) q
           | _ => q
           end in
  order_by_start q.

(** §4.3 in the spec's words: some Booking in [room] whose series identifier
    differs from [excludeKey] (a null identifier differs from every key)
    overlaps the candidate range. *)
Definition spec_hasConflict (room : string) (sdt edt : datetime) (excludeKey : string)
           (db : database) : Prop :=
  ∃ r, r ∈ rows db ∧ b_room r = room ∧ b_series_id r ≠ Some excludeKey ∧ overlaps r sdt edt.

End App.
Export App.

(** ** Vocabulary of the statements, and sample data *)

Module Sample.

(* the calendar dates of a list of occurrences, as infer_series_pattern reads them *)
Definition dates_of (occ_list : list Booking) : list date :=
  (λ o, dt_date (b_start o)) <$> occ_list.

(* a row lies within one calendar date and ends after it starts *)
Definition same_day (r : Booking) : Prop :=
  dt_date (b_start r) = dt_date (b_end r) ∧ dt_lt (b_start r) (b_end r).

(* no two rows at different positions overlap *)
Definition pairwise_disjoint (l : list Booking) : Prop :=
  ∀ i j r1 r2, i ≠ j → l !! i = Some r1 → l !! j = Some r2 →
               ¬ overlaps r1 (b_start r2) (b_end r2).

(* the row that new_booking and edit_booking build for date [d] *)
Definition occurrence (room title account : string) (who : option string)
           (start_time end_time : time) (series_id : option string)
           (d : date) (r : Booking) : Prop :=
  b_room r = room ∧ b_title r = title ∧ b_account r = account ∧ b_who r = who
  ∧ b_start r = combine d start_time ∧ b_end r = combine d end_time
  ∧ b_series_id r = series_id.

(* new_booking's conflict query finds a row for the slot on date [d] *)
Definition create_conflicting (room : string) (start_time end_time : time) (db : database)
           (d : date) : Prop :=
  is_Some (create_conflict room (combine d start_time) (combine d end_time) db).

#[export] Instance create_conflicting_dec room st et db d :
  Decision (create_conflicting room st et db d).
Proof. unfold create_conflicting. apply _. Defined.

(* new_booking's [series_id]: minted when more than one date is booked *)
Definition minted (fresh : string) (dates : list date) : option string :=
  if decide (1 < length dates)%nat then Some fresh else None.

(* the keys of a weekly grid: the rooms, and under each room the seven
   dates from [week_start] on *)
Definition grid_shape (week_start : date) (grid : gmap string (gmap Z (list Booking))) : Prop :=
  ∀ room, (is_Some (grid !! room) ↔ room ∈ ROOMS)
          ∧ ∀ days, grid !! room = Some days →
                    ∀ day, is_Some (days !! day) ↔ week_start ≤ day ≤ week_start + 6.

(* [b] belongs in the bucket of [room] and [day] of the week from [week_start] *)
Definition lands (week_start : date) (room : string) (day : date) (b : Booking) : Prop :=
  b_room b = room ∧ dt_date (b_start b) = day
  ∧ room ∈ ROOMS ∧ week_start ≤ day ≤ week_start + 6.

#[export] Instance lands_dec week_start room day b : Decision (lands week_start room day b).
Proof. unfold lands. apply _. Defined.

(* hh:mm as a time of day *)
Definition hm (h m : Z) : time := (h * 60 + m) * 60000000.

Definition wetlab : string := "Wetlab".
Definition series_S : string := "5d0c7a3e-series".

(* an occurrence of series S, 10:00-11:00 in the Wetlab *)
Definition occ_S (i : Z) (d : date) : Booking :=
  mkBooking i wetlab "TMS" "mumc" None (combine d (hm 10 0)) (combine d (hm 11 0))
            (Some series_S).

(* a series on Mon 2024-01-01 and Wed 2024-01-03, and a one-off booking
   on Mon 2024-01-08, 10:30-11:30, in the same room *)
Definition one_off : Booking :=
  mkBooking 3 wetlab "Intake" "mondriaan_heerlen" None
            (combine (d2024_01_01 + 7) (hm 10 30)) (combine (d2024_01_01 + 7) (hm 11 30)) None.

Definition db_one_off : database :=
  mkDb [occ_S 1 d2024_01_01; occ_S 2 (d2024_01_01 + 2); one_off] 4.

(* the same table, with the third booking belonging to another series *)
Definition db_other_series : database :=
  mkDb [occ_S 1 d2024_01_01; occ_S 2 (d2024_01_01 + 2);
        mkBooking 3 wetlab "Intake" "mondriaan_heerlen" None
                  (b_start one_off) (b_end one_off) (Some "9b1f-other"%string)] 4.

(* the series alone *)
Definition db_series_only : database :=
  mkDb [occ_S 1 d2024_01_01; occ_S 2 (d2024_01_01 + 2)] 3.

(* the edit form of occurrence 1: same slot, series extended to 2024-01-08 *)
Definition extend_form : booking_form :=
  mkForm (Some wetlab) "TMS" EmptyString (Parsed d2024_01_01)
         (Parsed (hm 10 0)) (Parsed (hm 11 0)) [] (Parsed (d2024_01_01 + 7)).

(* a weekly booking form: Mondays and Wednesdays from 2024-01-01 to 2024-01-15 *)
Definition weekly_form : booking_form :=
  mkForm (Some wetlab) "TMS" EmptyString (Parsed d2024_01_01)
         (Parsed (hm 10 0)) (Parsed (hm 11 0)) [Some 0; Some 2] (Parsed (d2024_01_01 + 14)).

End Sample.
Export Sample.

(** ** Deleting *)

Module Deleting.

(* delete_series, after the login tests:
     occs = Booking.query.filter_by(series_id=series_id).all()
   the count goes into the flash 'Reeks verwijderd ({count} boekingen).' *)
Definition delete_series (series_id : string) (db : database) : database * nat :=
  let occs := filter (λ r, sql_true (sql_eq (b_series_id r) series_id)) (rows db) in
  let count := length occs in
  (foldl (λ db o, db_delete o db) db occs, count).

(* delete_booking, after the login test; None is the 404 of get_or_404 *)
Definition delete_booking (booking_id : Z) (db : database) : option database :=
  b ← get booking_id db; Some (db_delete b db).

End Deleting.
Export Deleting.

(** ** Accounts and the session *)

Module Accounts.

(* class User(db.Model) *)
Record User := mkUser {
  u_id : Z;
  u_username : string;
  u_display_name : string;
  u_color : string;
  u_password_hash : string
}.

#[export] Instance User_eq_dec : EqDecision User.
Proof. solve_decision. Defined.

Record account_def := mkDef {
  username : string;
  display : string;
  color : string;
  env_pass : string
}.

Definition ACCOUNT_DEFS : list account_def :=
  [ mkDef "mondriaan_maastricht" "Mondriaan Maastricht" "#e53935" "PASS_MOND_MAASTRICHT";
    mkDef "mondriaan_heerlen" "Mondriaan Heerlen" "#fb8c00" "PASS_MOND_HEERLEN";
    mkDef "universiteit_maastricht" "Universiteit Maastricht" "#1e88e5" "PASS_UM";
    mkDef "mumc" "MUMC+" "#8e24aa" "PASS_MUMC" ]%string.

(* the Flask session, as far as the handlers read and write it *)
Record session := mkSession {
  s_authed : bool;            (* session.get('authed') *)
  s_user : option string      (* session.get('user') *)
}.

(* session.clear(), and the two pops of logout *)
Definition no_session : session := mkSession false None.

(* User.query.filter_by(username=uname).first() *)
Definition find_user (uname : string) (users : list User) : option User :=
  first (filter (λ u, u_username u = uname) users).

(* current_user *)
Definition current_user (s : session) (users : list User) : option User :=
  match s_user s with
  | Some uname => if decide (uname = EmptyString) then None else find_user uname users
  | None => None
  end.

(* account_colors_map and account_display_map: a dict comprehension over
   User.query.all(), a later row overwriting an earlier one of the same key *)
Definition account_colors_map (users : list User) : gmap string string :=
  foldl (λ m u, <[u_username u := u_color u]> m) ∅ users.

Definition account_display_map (users : list User) : gmap string string :=
  foldl (λ m u, <[u_username u := u_display_name u]> m) ∅ users.

Section hashing.
(* werkzeug.security, supplied from outside: the hash stored for a plain
   text, and the test of a plain text against a stored hash *)
Variable generate_password_hash : string → string.
Variable check_password_hash : string → string → bool.

(* the body of [for spec in ACCOUNT_DEFS] in seed_users_from_env; [env] is
   os.getenv; the table has lost no row, so a new row's id is its position *)
Definition seed_one (env : string → option string) (users : list User) (spec : account_def)
  : list User :=
  match env (env_pass spec) with
  | None => users
  | Some pw =>
      if decide (pw = EmptyString) then users
      else match find_user (username spec) users with
           | Some _ => users
           | None =>
               users ++ [mkUser (Z.of_nat (length users) + 1) (username spec) (display spec)
                                (color spec) (generate_password_hash pw)]
           end
  end.

Definition seed_users_from_env (env : string → option string) (users : list User) : list User :=
  foldl (seed_one env) users ACCOUNT_DEFS.

(* "Ensure users exist (first run)", as login and index start *)
Definition ensure_users (env : string → option string) (users : list User) : list User :=
  if decide (length users = 0%nat) then seed_users_from_env env users else users.

(* POST /login with the stripped form values; the boolean tells the
   redirect to the index (true) from the login page shown again (false) *)
Definition login (env : string → option string) (form_username form_password : string)
           (s : session) (users : list User) : list User * session * bool :=
  let users := ensure_users env users in
  match find_user form_username users with
  | Some user =>
      if check_password_hash (u_password_hash user) form_password
      then (users, mkSession true (Some (u_username user)), true)
      else (users, s, false)
  | None => (users, s, false)
  end.

End hashing.

(* GET /logout *)
Definition logout (s : session) : session := no_session.

End Accounts.
Export Accounts.

(** ** The routes, with their login tests *)

Module Routes.

Inductive method := GET | POST.

Inductive reply : Type :=
| ToLogin                       (* not logged in: redirect to the login page *)
| SessionExpired                (* the session names no account: session.clear(), login page *)
| Page                          (* a GET: the form is rendered *)
| Answer (r : response)         (* what the POST branch answered *)
| SeriesDeleted (count : nat)   (* 'Reeks verwijderd ({count} boekingen).' *)
| BookingDeleted.               (* 'Boeking verwijderd.' *)

(* the two tests new_booking, edit_booking and delete_series open with *)
Definition logged_in (s : session) (users : list User) : session * reply + User :=
  if s_authed s then
    match current_user s users with
    | Some me => inr me
    | None => inl (no_session, SessionExpired)
    end
  else inl (s, ToLogin).

(* /book/new *)
Definition new_booking_route (m : method) (s : session) (users : list User) (fresh : string)
           (f : booking_form) (db : database) : session * database * reply :=
  match logged_in s users with
  | inl (s', r) => (s', db, r)
  | inr me =>
      match m with
      | POST => let '(db', r) := new_booking (u_username me) fresh f db in (s, db', Answer r)
      | GET => (s, db, Page)
      end
  end.

(* /book/edit/<booking_id>: get_or_404 comes before the test of the method *)
Definition edit_booking_route (m : method) (s : session) (users : list User) (booking_id : Z)
           (f : booking_form) (db : database) : session * database * reply :=
  match logged_in s users with
  | inl (s', r) => (s', db, r)
  | inr me =>
      match m with
      | POST => let '(db', r) := edit_booking booking_id f db in (s, db', Answer r)
      | GET => match get booking_id db with
               | Some _ => (s, db, Page)
               | None => (s, db, Answer NotFound)
               end
      end
  end.

(* POST /book/series/<series_id>/delete *)
Definition delete_series_route (s : session) (users : list User) (series_id : string)
           (db : database) : session * database * reply :=
  match logged_in s users with
  | inl (s', r) => (s', db, r)
  | inr me => let '(db', count) := delete_series series_id db in (s, db', SeriesDeleted count)
  end.

(* POST /book/delete/<booking_id>: only session['authed'] is tested *)
Definition delete_booking_route (s : session) (booking_id : Z) (db : database)
  : session * database * reply :=
  if s_authed s then
    match delete_booking booking_id db with
    | Some db' => (s, db', BookingDeleted)
    | None => (s, db, Answer NotFound)
    end
  else (s, db, ToLogin).

(* index: the date whose week is shown; jump_date wins over week_start, and
   a value that does not parse falls back to today.  The subtraction cannot
   leave the calendar (lemma [monday_in_calendar]). *)
Definition shown_date (jump_date week_start : field date) (today : date) : date :=
  match jump_date with
  | Parsed target => target - weekday target
  | Malformed => today
  | Absent =>
      match week_start with
      | Parsed d => d
      | Malformed => today
      | Absent => today
      end
  end.

End Routes.
Export Routes.

(** ** Vocabulary of the further statements *)

Module Invariants.

(* primary keys are unique *)
Definition unique_ids (db : database) : Prop := NoDup (b_id <$> rows db).

(* no two rows at different positions hold one room at overlapping times *)
Definition no_double_booking (l : list Booking) : Prop :=
  ∀ i j r1 r2, i ≠ j → l !! i = Some r1 → l !! j = Some r2 →
               b_room r1 = b_room r2 → ¬ overlaps r1 (b_start r2) (b_end r2).

(* two rows that may stand in one table *)
Definition compatible (r1 r2 : Booking) : Prop :=
  b_room r1 = b_room r2 → ¬ overlaps r1 (b_start r2) (b_end r2).

#[export] Instance compatible_dec r1 r2 : Decision (compatible r1 r2).
Proof. unfold compatible. apply _. Defined.

(* the rows of a series, in storage order *)
Definition series_rows (series_id : string) (db : database) : list Booking :=
  filter (λ r, b_series_id r = Some series_id) (rows db).

(* the rows outside a series, in storage order *)
Definition other_rows (series_id : string) (db : database) : list Booking :=
  filter (λ r, b_series_id r ≠ Some series_id) (rows db).

(* the date a request to the index page asks for *)
Definition requested_date (jump_date week_start : field date) (today : date) : date :=
  match jump_date with
  | Parsed target => target
  | Malformed => today
  | Absent => match week_start with
              | Parsed d => d
              | _ => today
              end
  end.

(* every occurrence of a series starts on a date of the calendar before the
   last one, 9999-12-31 *)
Definition series_before_date_max (db : database) : Prop :=
  Forall (λ r, b_series_id r ≠ None → date_min ≤ dt_date (b_start r) < date_max) (rows db).

(* the edit form of occurrence 1 with the series extended to 9999-12-31 *)
Definition extend_to_date_max_form : booking_form :=
  mkForm (Some wetlab) "TMS" EmptyString (Parsed d2024_01_01)
         (Parsed (hm 10 0)) (Parsed (hm 11 0)) [] (Parsed date_max).

(* the weekly booking form with its repeat end on 9999-12-31 *)
Definition weekly_to_date_max_form : booking_form :=
  mkForm (Some wetlab) "TMS" EmptyString (Parsed d2024_01_01)
         (Parsed (hm 10 0)) (Parsed (hm 11 0)) [Some 0; Some 2] (Parsed date_max).

(* a table of accounts with its usernames unique *)
Definition unique_usernames (users : list User) : Prop := NoDup (u_username <$> users).

(* the row a single edit writes in place of [r] *)
Definition edited (r : Booking) (room title : string) (who : option string)
           (new_start new_end : datetime) : Booking :=
  mkBooking (b_id r) room title (b_account r) who new_start new_end (b_series_id r).

(* the one-off booking of the sample table, posted back unchanged, and
   moved half an hour earlier *)
Definition resubmit_form : booking_form :=
  mkForm (Some wetlab) "Intake" EmptyString (Parsed (d2024_01_01 + 7))
         (Parsed (hm 10 30)) (Parsed (hm 11 30)) [] Absent.

Definition move_form : booking_form :=
  mkForm (Some wetlab) "Intake" "dr. Jansen" (Parsed (d2024_01_01 + 7))
         (Parsed (hm 10 0)) (Parsed (hm 11 0)) [] Absent.

(* the account of [spec] is to be seeded: its password is set and not empty *)
Definition has_password (env : string → option string) (spec : account_def) : Prop :=
  ∃ pw, env (env_pass spec) = Some pw ∧ pw ≠ EmptyString.

(* three accounts, and an environment with two passwords set *)
Definition sample_env (key : string) : option string :=
  if decide (key = "PASS_UM"%string) then Some "um-secret"%string
  else if decide (key = "PASS_MUMC"%string) then Some "mumc-secret"%string
  else if decide (key = "PASS_MOND_HEERLEN"%string) then Some EmptyString
  else None.

Definition sample_hash (pw : string) : string := ("h:" ++ pw)%string.
Definition sample_check (h pw : string) : bool := bool_decide (h = sample_hash pw).

Definition sample_users : list User :=
  [mkUser 1 "mumc" "MUMC+" "#8e24aa" (sample_hash "mumc-secret")]%string.

End Invariants.
Export Invariants.

(** * Properties *)

(** ** Order of instants *)

Section instants.
Implicit Types a b c : datetime.

Lemma dt_lt_irrefl a : ¬ dt_lt a a.
Proof. unfold dt_lt. lia. Qed.

Lemma dt_lt_le a b : dt_lt a b → dt_le a b.
Proof. unfold dt_lt, dt_le. lia. Qed.

Lemma dt_le_refl a : dt_le a a.
Proof. unfold dt_le. lia. Qed.

Lemma dt_le_trans a b c : dt_le a b → dt_le b c → dt_le a c.
Proof. unfold dt_le. lia. Qed.

Lemma dt_le_lt_trans a b c : dt_le a b → dt_lt b c → dt_lt a c.
Proof. unfold dt_le, dt_lt. lia. Qed.

Lemma dt_le_total a b : dt_le a b ∨ dt_le b a.
Proof. unfold dt_le. lia. Qed.

Lemma dt_not_le a b : ¬ dt_le a b ↔ dt_lt b a.
Proof. unfold dt_le, dt_lt. lia. Qed.

(* on one date the order of instants is the order of times of day *)
Lemma dt_lt_same_day d s e : dt_lt (combine d s) (combine d e) ↔ s < e.
Proof. unfold dt_lt. simpl. lia. Qed.

End instants.

Lemma start_le_trans : Transitive start_le.
Proof. intros x y z. apply dt_le_trans. Qed.

Lemma start_le_total : Total start_le.
Proof. intros x y. apply dt_le_total. Qed.

(** ** The calendar *)

Lemma date_add_Some d n d' :
  date_add d n = Some d' ↔ d' = d + n ∧ date_min ≤ d + n ≤ date_max.
Proof. unfold date_add. case_decide; split; [intros [= <-]|intros [-> _]|done|lia]; done. Qed.

Lemma date_add_None d n : date_add d n = None ↔ ¬ (date_min ≤ d + n ≤ date_max).
Proof. unfold date_add. case_decide; split; done. Qed.

(* date.min is a Monday: the Monday of the week of a date is a date *)
Lemma monday_in_calendar d : valid_date d → valid_date (d - weekday d).
Proof.
  unfold valid_date, weekday, date_min, date_max. intros Hd.
  pose proof (Z.mod_pos_bound (d + 6) 7 ltac:(lia)).
  pose proof (Z.div_mod (d + 6) 7 ltac:(lia)).
  assert (1 ≤ (d + 6) `div` 7) by (apply Z.div_le_lower_bound; lia).
  lia.
Qed.

(** ** The day walk *)

Section walk.
Variable weekdays : gset Z.
Variable end_date : date.

(* when the loop returns, it has made every step up to the end date and has
   appended the dates of the walk of §4.2 *)
Lemma while_days_Some fuel cur dates result :
  (span cur end_date ≤ fuel)%nat →
  while_days fuel cur end_date weekdays dates = Some result →
  result = dates ++ spec_expand cur weekdays end_date
  ∧ (cur ≤ end_date → date_min ≤ cur + 1 ∧ end_date < date_max).
Proof.
  unfold spec_expand, span. revert cur dates.
  induction fuel as [|fuel IH]; intros cur dates Hfuel; simpl.
  - intros [= <-]. rewrite seqZ_nil by lia. rewrite app_nil_r. split; [done|lia].
  - destruct (decide (cur ≤ end_date)) as [Hle|Hgt].
    + destruct (date_add cur 1) as [cur'|] eqn:Hadd; [|done].
      apply date_add_Some in Hadd as [-> Hcur]. intros Hres.
      apply IH in Hres as [-> Hend]; [|lia]. split; [|lia].
      rewrite (seqZ_cons cur) by lia. rewrite filter_cons.
      replace (Z.pred (end_date - cur + 1)) with (end_date - (cur + 1) + 1) by lia.
      replace (Z.succ cur) with (cur + 1) by lia.
      case_decide; [|done]. by rewrite <-app_assoc.
    + intros [= <-]. rewrite seqZ_nil by lia. rewrite app_nil_r. split; [done|lia].
Qed.

(* with [span cur end_date] iterations or more the loop leaves by its own
   test, provided the end date is not the last date of the calendar *)
Lemma while_days_returns fuel cur dates :
  (span cur end_date ≤ fuel)%nat →
  date_min ≤ cur + 1 →
  end_date < date_max ∨ end_date < cur →
  while_days fuel cur end_date weekdays dates
  = Some (dates ++ spec_expand cur weekdays end_date).
Proof.
  unfold spec_expand, span. revert cur dates.
  induction fuel as [|fuel IH]; intros cur dates Hfuel Hcur Hend; simpl.
  - rewrite seqZ_nil by lia. by rewrite app_nil_r.
  - destruct (decide (cur ≤ end_date)) as [Hle|Hgt].
    + destruct (date_add cur 1) as [cur'|] eqn:Hadd.
      * apply date_add_Some in Hadd as [-> _].
        rewrite IH by lia.
        rewrite (seqZ_cons cur) by lia. rewrite filter_cons.
        replace (Z.pred (end_date - cur + 1)) with (end_date - (cur + 1) + 1) by lia.
        replace (Z.succ cur) with (cur + 1) by lia.
        case_decide; [|done]. by rewrite <-app_assoc.
      * apply date_add_None in Hadd. lia.
    + rewrite seqZ_nil by lia. by rewrite app_nil_r.
Qed.

(* the loop raises when it has to step past the last date of the calendar *)
Lemma while_days_raises fuel cur dates :
  (span cur end_date ≤ fuel)%nat →
  cur ≤ end_date → date_max ≤ end_date →
  while_days fuel cur end_date weekdays dates = None.
Proof.
  unfold span. revert cur dates.
  induction fuel as [|fuel IH]; intros cur dates Hfuel Hle Hend; simpl; [lia|].
  rewrite decide_True by done.
  destruct (date_add cur 1) as [cur'|] eqn:Hadd; [|done].
  apply date_add_Some in Hadd as [-> Hcur]. apply IH; lia.
Qed.

Lemma expand_Some anchor dates :
  expand anchor weekdays end_date = Some dates →
  dates = spec_expand anchor weekdays end_date.
Proof. intros Hex. by apply while_days_Some in Hex as [-> _]. Qed.

Lemma expand_returns anchor :
  date_min ≤ anchor + 1 →
  end_date < date_max ∨ end_date < anchor →
  expand anchor weekdays end_date = Some (spec_expand anchor weekdays end_date).
Proof. intros. unfold expand. by rewrite while_days_returns. Qed.

Lemma expand_raises anchor :
  anchor ≤ end_date → date_max ≤ end_date → expand anchor weekdays end_date = None.
Proof. intros. by apply while_days_raises. Qed.

Lemma elem_of_spec_expand anchor d :
  d ∈ spec_expand anchor weekdays end_date ↔ anchor ≤ d ≤ end_date ∧ weekday d ∈ weekdays.
Proof. unfold spec_expand. rewrite list_elem_of_filter, elem_of_seqZ. intuition lia. Qed.

Lemma elem_of_expand anchor dates d :
  expand anchor weekdays end_date = Some dates →
  d ∈ dates ↔ anchor ≤ d ≤ end_date ∧ weekday d ∈ weekdays.
Proof. intros ->%expand_Some. apply elem_of_spec_expand. Qed.

End walk.

(* §8: from Mon 2024-01-01 to 2024-01-08 over {Mon, Wed} *)
Example expand_mon_wed :
  weekday d2024_01_01 = 0
  ∧ expand d2024_01_01 {[0; 2]} (d2024_01_01 + 7)
    = Some [d2024_01_01; d2024_01_01 + 2; d2024_01_01 + 7].
Proof. by vm_compute. Qed.

(* a walk that ends on 9999-12-31 raises *)
Example expand_to_date_max :
  expand (date_max - 1) {[0; 2]} date_max = None.
Proof. by vm_compute. Qed.

Lemma seqZ_ascending m n : StronglySorted Z.lt (seqZ m n).
Proof.
  destruct (decide (n ≤ 0)) as [?|Hn]; [rewrite seqZ_nil by done; constructor|].
  rewrite <-(Z2Nat.id n) by lia. generalize (Z.to_nat n) as k. clear n Hn.
  intros k. revert m. induction k as [|k IH]; intros m.
  - rewrite seqZ_nil by lia. constructor.
  - rewrite seqZ_cons by lia. constructor.
    + replace (Z.pred (Z.of_nat (S k))) with (Z.of_nat k) by lia. apply IH.
    + apply Forall_seqZ. lia.
Qed.

Lemma filter_ascending (P : Z → Prop) `{∀ x, Decision (P x)} (l : list Z) :
  StronglySorted Z.lt l → StronglySorted Z.lt (filter P l).
Proof.
  induction 1 as [|x l Hl IH Hx]; [constructor|].
  rewrite filter_cons. case_decide; [|done].
  constructor; [done|]. rewrite Forall_forall in Hx |- *.
  intros y [_ Hy]%list_elem_of_filter. auto.
Qed.

Lemma spec_expand_ascending anchor weekdays end_date :
  StronglySorted Z.lt (spec_expand anchor weekdays end_date).
Proof. apply filter_ascending, seqZ_ascending. Qed.

Lemma ascending_NoDup (l : list Z) : StronglySorted Z.lt l → NoDup l.
Proof.
  induction 1 as [|x l Hl IH Hx]; constructor; [|done].
  intros Hin. rewrite Forall_forall in Hx. specialize (Hx _ Hin). lia.
Qed.

(** ** Inference of a pattern from occurrences *)

Section infer.

Lemma min_date_le d ds x : x ∈ d :: ds → min_date d ds ≤ x.
Proof.
  unfold min_date. revert d x. induction ds as [|y ds IH]; intros d x Hx; simpl.
  - apply list_elem_of_singleton in Hx. lia.
  - apply elem_of_cons in Hx as [->|Hx].
    + etrans; [apply IH; left|]. lia.
    + apply elem_of_cons in Hx as [->|Hx].
      * etrans; [apply IH; left|]. lia.
      * apply IH. by right.
Qed.

Lemma min_date_elem d ds : min_date d ds ∈ d :: ds.
Proof.
  unfold min_date. revert d. induction ds as [|y ds IH]; intros d; simpl; [left|].
  specialize (IH (d `min` y)). apply elem_of_cons in IH as [->|IH].
  - destruct (Z.min_spec d y) as [[_ ->]|[_ ->]]; [left|right; left].
  - right; by right.
Qed.

Lemma max_date_ge d ds x : x ∈ d :: ds → x ≤ max_date d ds.
Proof.
  unfold max_date. revert d x. induction ds as [|y ds IH]; intros d x Hx; simpl.
  - apply list_elem_of_singleton in Hx. lia.
  - apply elem_of_cons in Hx as [->|Hx].
    + etrans; [|apply IH; left]. lia.
    + apply elem_of_cons in Hx as [->|Hx].
      * etrans; [|apply IH; left]. lia.
      * apply IH. by right.
Qed.

Lemma max_date_elem d ds : max_date d ds ∈ d :: ds.
Proof.
  unfold max_date. revert d. induction ds as [|y ds IH]; intros d; simpl; [left|].
  specialize (IH (d `max` y)). apply elem_of_cons in IH as [->|IH].
  - destruct (Z.max_spec d y) as [[_ ->]|[_ ->]]; [right; left|left].
  - right; by right.
Qed.

Lemma elem_of_weekdays (l : list Z) (w : Z) :
  w ∈ (list_to_set (weekday <$> l) : gset Z) ↔ ∃ x, x ∈ l ∧ weekday x = w.
Proof.
  rewrite elem_of_list_to_set, list_elem_of_fmap.
  split; [intros (x & -> & ?)|intros (x & ? & <-)]; eauto.
Qed.

(* what infer_series_pattern returns, read off the set of dates *)
Lemma infer_series_pattern_spec occ_list a wds e :
  infer_series_pattern occ_list = (Some a, wds, Some e) ↔
  a ∈ dates_of occ_list ∧ e ∈ dates_of occ_list
  ∧ (∀ x, x ∈ dates_of occ_list → a ≤ x ≤ e)
  ∧ (∀ w, w ∈ wds ↔ ∃ x, x ∈ dates_of occ_list ∧ weekday x = w).
Proof.
  unfold infer_series_pattern. fold (dates_of occ_list).
  destruct (dates_of occ_list) as [|d ds].
  - split; [done|]. intros [Ha _]. by apply elem_of_nil in Ha.
  - split.
    + intros [= <- <- <-]. split_and!.
      * apply min_date_elem.
      * apply max_date_elem.
      * intros x Hx. split; [by apply min_date_le|by apply max_date_ge].
      * intros w. apply (elem_of_weekdays (d :: ds)).
    + intros (Ha & He & Hbounds & Hw). f_equal; [f_equal|].
      * f_equal. pose proof (min_date_le d ds a Ha).
        pose proof (Hbounds _ (min_date_elem d ds)). lia.
      * apply set_eq. intros w. rewrite Hw. apply (elem_of_weekdays (d :: ds)).
      * f_equal. pose proof (max_date_ge d ds e He).
        pose proof (Hbounds _ (max_date_elem d ds)). lia.
Qed.

End infer.

(** C3, as stated, fails: from Monday 2024-01-01 to Monday 2024-01-08 with
    the weekday set {Wednesday}, the walk yields the single date 2024-01-03
    and the inferred pattern is (2024-01-03, {Wednesday}, 2024-01-03), which
    has neither the anchor nor the end date of the pattern walked. *)
Lemma infer_expand_not_identity :
  let A := d2024_01_01 in
  let W : gset Z := {[2]} in
  let E := d2024_01_01 + 7 in
  let occs := [occ_S 1 (d2024_01_01 + 2)] in
  W ≠ ∅ ∧ A ≤ E ∧ dates_of occs ≠ [] ∧ expand A W E = Some (dates_of occs)
  ∧ infer_series_pattern occs = (Some (A + 2), W, Some (A + 2))
  ∧ infer_series_pattern occs ≠ (Some A, W, Some E).
Proof.
  cbv zeta. split_and!.
  - intros H. apply (f_equal (λ X : gset Z, bool_decide (2 ∈ X))) in H. vm_compute in H. done.
  - vm_compute. done.
  - vm_compute. done.
  - vm_compute. done.
  - apply infer_series_pattern_spec. vm_compute dates_of. split_and!.
    + set_solver.
    + set_solver.
    + intros x ->%list_elem_of_singleton. unfold d2024_01_01. lia.
    + intros w. rewrite elem_of_singleton. setoid_rewrite list_elem_of_singleton.
      split; [intros ->; by eexists|intros (x & -> & <-); done].
  - intros [Ha _]%infer_series_pattern_spec. vm_compute in Ha.
    apply list_elem_of_singleton in Ha. done.
Qed.

(** C3 (amended): for [A <= E] and occurrences whose dates are those the
    walk from A to E over W produces, the inferred pattern is (A, W, E)
    exactly when A's weekday and E's weekday are in W and every member of W
    is the weekday of some date from A to E. *)
Theorem infer_expand_roundtrip (A E : date) (W : gset Z) (dates : list date)
        (occs : list Booking) :
  A ≤ E →
  expand A W E = Some dates →
  dates_of occs ≡ₚ dates →
  infer_series_pattern occs = (Some A, W, Some E)
  ↔ weekday A ∈ W ∧ weekday E ∈ W ∧ ∀ w, w ∈ W → ∃ d, A ≤ d ≤ E ∧ weekday d = w.
Proof.
  intros HAE Hexpand Hdates. rewrite infer_series_pattern_spec.
  assert (Hin : ∀ x, x ∈ dates_of occs ↔ A ≤ x ≤ E ∧ weekday x ∈ W).
  { intros x. rewrite Hdates. by apply elem_of_expand. }
  setoid_rewrite Hin. split.
  - intros (HA & HE & _ & Hw). split_and!; [apply HA|apply HE|].
    intros w [x [[? _] ?]]%Hw. eauto.
  - intros (HA & HE & Hw).
    split; [split; [lia|done]|]. split; [split; [lia|done]|]. split; [tauto|].
    intros w. split.
    + intros Hin'. destruct (Hw _ Hin') as (d & ? & <-). eauto.
    + intros (x & [_ ?] & <-). done.
Qed.

Lemma infer_expand_roundtrip_witness :
  let A := d2024_01_01 in
  let E := d2024_01_01 + 7 in
  let W : gset Z := {[0; 2]} in
  let occs := [occ_S 1 A; occ_S 2 (A + 2); occ_S 3 E] in
  infer_series_pattern occs = (Some A, W, Some E)
  ↔ weekday A ∈ W ∧ weekday E ∈ W ∧ ∀ w, w ∈ W → ∃ d, A ≤ d ≤ E ∧ weekday d = w.
Proof.
  cbv zeta. apply (infer_expand_roundtrip _ _ _ [d2024_01_01; d2024_01_01 + 2; d2024_01_01 + 7]).
  - unfold d2024_01_01. lia.
  - vm_compute. done.
  - vm_compute. done.
Defined.

(** ** Queries *)

Lemma first_filter_is_Some {A} (P : A → Prop) `{∀ x, Decision (P x)} (l : list A) :
  is_Some (first (filter P l)) ↔ ∃ x, x ∈ l ∧ P x.
Proof.
  unfold first. induction l as [|a l IH]; simpl.
  - split; [by intros [? ?]|]. intros (x & Hx & _). by apply elem_of_nil in Hx.
  - rewrite filter_cons. case_decide as HP; simpl.
    + split; [|by eauto]. intros _. exists a. split; [left|done].
    + rewrite IH. split.
      * intros (x & ? & ?). exists x. split; [by right|done].
      * intros (x & [->|?]%elem_of_cons & ?); [done|eauto].
Qed.

Lemma create_conflict_is_Some room sdt edt db :
  is_Some (create_conflict room sdt edt db)
  ↔ ∃ r, r ∈ rows db ∧ b_room r = room ∧ dt_lt (b_start r) edt ∧ dt_lt sdt (b_end r).
Proof. unfold create_conflict. rewrite first_filter_is_Some. done. Qed.

Lemma series_conflict_is_Some room series_id sdt edt db :
  is_Some (series_conflict room series_id sdt edt db)
  ↔ ∃ r, r ∈ rows db ∧ b_room r = room
         ∧ (∃ s, b_series_id r = Some s ∧ s ≠ series_id)
         ∧ dt_lt (b_start r) edt ∧ dt_lt sdt (b_end r).
Proof.
  unfold series_conflict. rewrite first_filter_is_Some.
  apply exist_proper. intros r. unfold sql_true, sql_ne, overlaps.
  destruct (b_series_id r) as [s|]; simpl.
  - split.
    + intros (? & ? & [= Hne%bool_decide_eq_true] & ?). eauto 10.
    + intros (? & ? & (s' & [= <-] & ?) & ? & ?). split_and!; try done.
      f_equal. by apply bool_decide_eq_true.
  - split; [by intros (? & ? & [=] & _)|by intros (? & ? & (? & [=] & _) & _)].
Qed.

Lemma single_conflict_is_Some booking_id room new_start new_end db :
  is_Some (single_conflict booking_id room new_start new_end db)
  ↔ ∃ r, r ∈ rows db ∧ b_id r ≠ booking_id ∧ b_room r = room
         ∧ dt_lt (b_start r) new_end ∧ dt_lt new_start (b_end r).
Proof. unfold single_conflict. rewrite first_filter_is_Some. done. Qed.

(* a slot never overlaps a same-day row of another date *)
Lemma other_day_disjoint r d d' st et st' et' :
  b_start r = combine d' st' → b_end r = combine d' et' → d ≠ d' →
  ¬ overlaps r (combine d st) (combine d et).
Proof. unfold overlaps, dt_lt. intros -> -> ?. simpl. lia. Qed.

(** ** Validation *)

Lemma parse_slot_pass f bad room start_dt end_dt :
  parse_slot f bad = pass (room, start_dt, end_dt) →
  room ∈ ROOMS ∧ f_room f = Some room ∧ f_title f ≠ EmptyString
  ∧ ∃ d st et, f_date f = Parsed d ∧ f_start_time f = Parsed st ∧ f_end_time f = Parsed et
               ∧ start_dt = combine d st ∧ end_dt = combine d et ∧ st < et.
Proof.
  unfold parse_slot, andthen, require, pass, reject.
  destruct (f_room f) as [r|]; [|done].
  case_decide as Hroom; [|done]. case_decide as Hgiven; [|done].
  destruct (f_date f) as [| |d]; try done.
  destruct (f_start_time f) as [| |st]; try done.
  destruct (f_end_time f) as [| |et]; try done.
  case_decide as Hle; [|done]. intros [= <- <- <-].
  split_and!; try done; [tauto|]. exists d, st, et. split_and!; try done.
  apply dt_not_le, dt_lt_same_day in Hle. done.
Qed.

Lemma parse_slot_reject f bad r :
  parse_slot f bad = reject r →
  r = bad ∨ r = MissingFields ∨ r = BadDateOrTime ∨ r = EndNotAfterStart.
Proof.
  unfold parse_slot, andthen, require, pass, reject.
  repeat (case_match; simplify_eq/=); intros; simplify_eq; tauto.
Qed.

Lemma booking_dates_pass f base_date dates :
  booking_dates f base_date = pass dates →
  (¬ (f_repeat_days f ≠ [] ∧ given (f_repeat_end f)) ∧ dates = [base_date])
  ∨ (f_repeat_days f ≠ [] ∧
     ∃ W e, f_repeat_end f = Parsed e ∧ int_set (f_repeat_days f) = Some W
            ∧ dates = base_date :: spec_expand (base_date + 1) W e).
Proof.
  unfold booking_dates, pass, reject. case_decide as Hrep.
  - destruct (f_repeat_end f) as [| |e]; try done.
    destruct (int_set (f_repeat_days f)) as [W|]; [|done].
    destruct (date_add base_date 1) as [cur|] eqn:Hadd; [|done].
    apply date_add_Some in Hadd as [-> _].
    destruct (while_days _ _ _ _ _) as [result|] eqn:Hloop; [|done].
    intros [= <-]. right. split; [tauto|]. exists W, e. split_and!; try done.
    by apply while_days_Some in Hloop as [-> _].
  - intros [= <-]. by left.
Qed.

(* with a repeat part, the list is built when neither the base date nor the
   repeat end is the last date of the calendar *)
Lemma booking_dates_returns f base_date W e :
  f_repeat_days f ≠ [] → f_repeat_end f = Parsed e → int_set (f_repeat_days f) = Some W →
  date_min ≤ base_date < date_max → e < date_max →
  booking_dates f base_date = pass (base_date :: spec_expand (base_date + 1) W e).
Proof.
  intros Hdays Hend Hset Hbase He. unfold booking_dates. rewrite Hend, Hset.
  rewrite decide_True by done.
  destruct (date_add base_date 1) as [cur|] eqn:Hadd.
  - apply date_add_Some in Hadd as [-> _].
    rewrite while_days_returns; [done|done|lia|by left].
  - apply date_add_None in Hadd. lia.
Qed.

(* and the request fails on the uncaught OverflowError when one of them is *)
Lemma booking_dates_raises f base_date W e :
  f_repeat_days f ≠ [] → f_repeat_end f = Parsed e → int_set (f_repeat_days f) = Some W →
  date_max ≤ base_date ∨ date_max ≤ e →
  booking_dates f base_date = reject ServerError.
Proof.
  intros Hdays Hend Hset Hmax. unfold booking_dates. rewrite Hend, Hset.
  rewrite decide_True by done.
  destruct (date_add base_date 1) as [cur|] eqn:Hadd; [|done].
  apply date_add_Some in Hadd as [-> Hcur].
  rewrite while_days_raises; [done|done|lia|lia].
Qed.

Lemma candidates_ascending base_date W e :
  StronglySorted Z.lt (base_date :: spec_expand (base_date + 1) W e).
Proof.
  constructor; [apply spec_expand_ascending|].
  apply Forall_forall. intros d [? _]%elem_of_spec_expand. lia.
Qed.

Lemma booking_dates_NoDup f base_date dates :
  booking_dates f base_date = pass dates → NoDup dates.
Proof.
  intros [[_ ->]|(_ & W & e & _ & _ & ->)]%booking_dates_pass.
  - apply NoDup_singleton.
  - apply ascending_NoDup, candidates_ascending.
Qed.

(** C5: new_booking's candidate list is [base_date] alone when the form has
    no repeat days or no repeat end; with repeat days W and repeat end E it
    is base_date followed by every date from base_date+1 to E inclusive whose
    weekday is in W, in ascending order. base_date heads the list whatever
    its weekday.  With a repeat part the list is built exactly when base_date
    and E lie before the last date of the calendar, 9999-12-31: the walk
    steps one day past E, and on date.max that step raises an OverflowError
    which the handler does not catch. *)
Theorem booking_dates_candidates (f : booking_form) (base_date : date) :
  (¬ (f_repeat_days f ≠ [] ∧ given (f_repeat_end f)) →
   booking_dates f base_date = pass [base_date])
  ∧ (∀ W E, f_repeat_days f ≠ [] → f_repeat_end f = Parsed E →
            int_set (f_repeat_days f) = Some W →
            (date_min ≤ base_date < date_max → E < date_max →
             booking_dates f base_date = pass (base_date :: spec_expand (base_date + 1) W E))
            ∧ (date_max ≤ base_date ∨ date_max ≤ E →
               booking_dates f base_date = reject ServerError)
            ∧ (∀ dates, booking_dates f base_date = pass dates →
                        dates = base_date :: spec_expand (base_date + 1) W E)
            ∧ StronglySorted Z.lt (base_date :: spec_expand (base_date + 1) W E)
            ∧ ∀ d, d ∈ spec_expand (base_date + 1) W E
                   ↔ base_date + 1 ≤ d ≤ E ∧ weekday d ∈ W).
Proof.
  split.
  - intros Hno. unfold booking_dates. by case_decide.
  - intros W E Hdays Hend Hset. split_and!.
    + intros. by apply booking_dates_returns.
    + intros. by apply (booking_dates_raises f base_date W E).
    + intros dates [[Hno _]|(_ & W' & E' & HE' & HW' & ->)]%booking_dates_pass.
      * destruct Hno. split; [done|]. by rewrite Hend.
      * congruence.
    + apply candidates_ascending.
    + intros d. apply elem_of_spec_expand.
Qed.

Lemma booking_dates_candidates_witness :
  booking_dates weekly_form d2024_01_01
  = pass [d2024_01_01; d2024_01_01 + 2; d2024_01_01 + 7; d2024_01_01 + 9; d2024_01_01 + 14].
Proof.
  destruct (booking_dates_candidates weekly_form d2024_01_01) as [_ Hrepeat].
  destruct (Hrepeat {[0; 2]} (d2024_01_01 + 14)) as [-> _];
    [done|done|by vm_compute|by vm_compute|by vm_compute|].
  by vm_compute.
Defined.

(** ** Creation *)

Section create.
Variables (room title account : string) (who : option string).
Variables (start_time end_time : time) (series_id : option string).
Variable db0 : database.

#[local] Abbreviation step := (book_one room title account who start_time end_time series_id).
#[local] Abbreviation conflicting := (create_conflicting room start_time end_time).
#[local] Abbreviation built := (occurrence room title account who start_time end_time series_id).

(* a row just added for another date does not change the answer of the query *)
Lemma create_conflicting_add db d d' :
  d ≠ d' →
  conflicting (db_add room title account who (combine d' start_time)
                      (combine d' end_time) series_id db) d
  ↔ conflicting db d.
Proof.
  intros Hne. unfold create_conflicting, create_conflict.
  rewrite !first_filter_is_Some. simpl. split.
  - intros (r & [Hr| ->%list_elem_of_singleton]%elem_of_app & Hroom & Hov); [by eauto|].
    by eapply other_day_disjoint in Hov.
  - intros (r & Hr & ?). exists r. split; [|done]. apply elem_of_app. by left.
Qed.

(* the loop over distinct dates: every date is judged as against the table
   the call started from; the conflicting ones are recorded, the others
   get one row each, appended in order *)
Lemma book_all dates :
  NoDup dates → ∀ db created conflicts,
  (∀ d, d ∈ dates → conflicting db d ↔ conflicting db0 d) →
  ∃ new_rows,
    foldl step (db, created, conflicts) dates
    = (mkDb (rows db ++ new_rows) (next_id db + Z.of_nat (length new_rows)),
       (created + length new_rows)%nat,
       conflicts ++ filter (conflicting db0) dates)
    ∧ Forall2 built (filter (λ d, ¬ conflicting db0 d) dates) new_rows.
Proof.
  induction 1 as [|d dates Hd Hnodup IH]; intros db created conflicts Hsame.
  - exists []. simpl. rewrite !app_nil_r, Z.add_0_r, Nat.add_0_r.
    split; [by destruct db|constructor].
  - simpl. rewrite !filter_cons.
    assert (Hhead : conflicting db d ↔ conflicting db0 d) by (apply Hsame; left).
    destruct (create_conflict room (combine d start_time) (combine d end_time) db)
      as [hit|] eqn:Hq.
    + assert (Hc : conflicting db0 d).
      { apply Hhead. unfold create_conflicting. rewrite Hq. by eexists. }
      destruct (IH db created (conflicts ++ [d])) as (new_rows & -> & Hbuilt).
      { intros d' Hd'. apply Hsame. by right. }
      exists new_rows. rewrite decide_True by done. rewrite decide_False by tauto.
      rewrite <-app_assoc. done.
    + assert (Hc : ¬ conflicting db0 d).
      { rewrite <-Hhead. unfold create_conflicting. rewrite Hq. by intros [? ?]. }
      set (db1 := db_add _ _ _ _ _ _ _ db).
      destruct (IH db1 (S created) conflicts) as (new_rows & -> & Hbuilt).
      { intros d' Hd'. unfold db1. rewrite create_conflicting_add by (intros ->; done).
        apply Hsame. by right. }
      exists (mkBooking (next_id db) room title account who (combine d start_time)
                        (combine d end_time) series_id :: new_rows).
      rewrite decide_False by done. rewrite decide_True by done. split.
      * unfold db1, db_add. simpl. rewrite <-app_assoc. simpl.
        do 2 f_equal; [f_equal; lia|lia].
      * constructor; [by repeat split|done].
Qed.

End create.

(* what a valid POST /book/new does *)
Lemma new_booking_valid me fresh f db room start_dt end_dt dates :
  parse_slot f InvalidRoom = pass (room, start_dt, end_dt) →
  booking_dates f (dt_date start_dt) = pass dates →
  ∃ new_rows,
    new_booking me fresh f db
    = (mkDb (rows db ++ new_rows) (next_id db + Z.of_nat (length new_rows)),
       Created (length new_rows)
               (filter (create_conflicting room (dt_time start_dt) (dt_time end_dt) db) dates))
    ∧ Forall2 (occurrence room (f_title f) me (who_or_None (f_who f))
                          (dt_time start_dt) (dt_time end_dt) (minted fresh dates))
              (filter (λ d, ¬ create_conflicting room (dt_time start_dt) (dt_time end_dt) db d)
                      dates)
              new_rows.
Proof.
  intros Hslot Hdates. unfold new_booking. rewrite Hslot. simpl. rewrite Hdates. simpl.
  destruct (book_all room (f_title f) me (who_or_None (f_who f)) (dt_time start_dt)
                     (dt_time end_dt) (minted fresh dates) db dates
                     (booking_dates_NoDup _ _ _ Hdates) db O []) as (new_rows & Hfold & Hbuilt);
    [done|].
  exists new_rows. unfold minted in Hfold. rewrite Hfold. done.
Qed.

(* an invalid POST /book/new leaves the table as it was *)
Lemma new_booking_invalid me fresh f db :
  (∀ room start_dt end_dt dates,
     parse_slot f InvalidRoom = pass (room, start_dt, end_dt) →
     booking_dates f (dt_date start_dt) ≠ pass dates) →
  (new_booking me fresh f db).1 = db.
Proof.
  intros Hbad. unfold new_booking.
  destruct (parse_slot f InvalidRoom) as [r|[[room start_dt] end_dt]] eqn:Hslot; [done|].
  simpl. destruct (booking_dates f (dt_date start_dt)) as [r|dates] eqn:Hdates; [done|].
  by destruct (Hbad room start_dt end_dt dates).
Qed.

Lemma filter_split_length {A} (P : A → Prop) `{∀ x, Decision (P x)} (l : list A) :
  length (filter (λ x, ¬ P x) l) = (length l - length (filter P l))%nat.
Proof.
  induction l as [|a l IH]; [done|]. rewrite !filter_cons.
  pose proof (length_filter P l).
  destruct (decide (P a)).
  - rewrite decide_False by tauto. simpl. lia.
  - rewrite decide_True by done. simpl. lia.
Qed.

(* rows built for distinct dates do not overlap one another *)
Lemma built_disjoint room title account who st et series dates new_rows :
  NoDup dates →
  Forall2 (occurrence room title account who st et series) dates new_rows →
  pairwise_disjoint new_rows ∧ dates_of new_rows = dates.
Proof.
  intros Hnodup Hbuilt. split.
  - intros i j r1 r2 Hij H1 H2.
    destruct (Forall2_lookup_r _ _ _ _ _ Hbuilt H1) as (d1 & Hd1 & O1).
    destruct (Forall2_lookup_r _ _ _ _ _ Hbuilt H2) as (d2 & Hd2 & O2).
    destruct O1 as (_ & _ & _ & _ & Hs1 & He1 & _).
    destruct O2 as (_ & _ & _ & _ & -> & -> & _).
    eapply other_day_disjoint; [done|done|].
    intros ->. apply Hij. by eapply NoDup_lookup.
  - clear Hnodup. unfold dates_of.
    induction Hbuilt as [|d r dates new_rows Hocc _ IH]; [done|].
    destruct Hocc as (_ & _ & _ & _ & Hs & _). simpl. rewrite Hs. simpl.
    f_equal. exact IH.
Qed.

Lemma built_same_day room title account who st et series dates new_rows :
  st < et →
  Forall2 (occurrence room title account who st et series) dates new_rows →
  Forall same_day new_rows.
Proof.
  intros Hlt Hbuilt. induction Hbuilt as [|d r dates new_rows Hocc _ IH]; constructor; [|done].
  destruct Hocc as (_ & _ & _ & _ & Hs & He & _). unfold same_day. rewrite Hs, He. simpl.
  split; [done|]. by apply dt_lt_same_day.
Qed.

(** C4: on a valid POST /book/new every candidate date is judged on its
    own: the dates whose slot overlaps a Booking of the room already in the
    table are skipped and reported, every other candidate date gets one
    persisted Booking, nothing else is written, and the reported count is the
    number of candidate dates minus the number of skipped ones. *)
Theorem new_booking_skips_conflicts me fresh f db room start_dt end_dt dates :
  parse_slot f InvalidRoom = pass (room, start_dt, end_dt) →
  booking_dates f (dt_date start_dt) = pass dates →
  let conflicting := create_conflicting room (dt_time start_dt) (dt_time end_dt) db in
  let skipped := filter conflicting dates in
  let kept := filter (λ d, ¬ conflicting d) dates in
  (∀ d, conflicting d ↔
        ∃ r, r ∈ rows db ∧ b_room r = room
             ∧ overlaps r (combine d (dt_time start_dt)) (combine d (dt_time end_dt)))
  ∧ ∃ new_rows,
      (new_booking me fresh f db).2 = Created (length dates - length skipped) skipped
      ∧ rows (new_booking me fresh f db).1 = rows db ++ new_rows
      ∧ Forall2 (occurrence room (f_title f) me (who_or_None (f_who f))
                            (dt_time start_dt) (dt_time end_dt) (minted fresh dates))
                kept new_rows.
Proof.
  intros Hslot Hdates. cbv zeta. split.
  - intros d. apply create_conflict_is_Some.
  - destruct (new_booking_valid me fresh f db _ _ _ _ Hslot Hdates) as (new_rows & -> & Hbuilt).
    exists new_rows. simpl. split_and!; [|done|done].
    rewrite <-(Forall2_length _ _ _ Hbuilt). by rewrite filter_split_length.
Qed.

Lemma new_booking_skips_conflicts_witness :
  ∃ new_rows,
    (new_booking "mumc" "7e1b-fresh" weekly_form db_one_off).2
    = Created 2 [d2024_01_01; d2024_01_01 + 2; d2024_01_01 + 7]
    ∧ rows (new_booking "mumc" "7e1b-fresh" weekly_form db_one_off).1
      = rows db_one_off ++ new_rows
    ∧ dates_of new_rows = [d2024_01_01 + 9; d2024_01_01 + 14].
Proof.
  destruct (new_booking_skips_conflicts "mumc" "7e1b-fresh" weekly_form db_one_off
              wetlab (combine d2024_01_01 (hm 10 0)) (combine d2024_01_01 (hm 11 0))
              [d2024_01_01; d2024_01_01 + 2; d2024_01_01 + 7; d2024_01_01 + 9;
               d2024_01_01 + 14])
    as (_ & new_rows & Hresp & Hrows & Hbuilt); [by vm_compute|by vm_compute|].
  exists new_rows. split_and!; [by rewrite Hresp|done|].
  eapply built_disjoint in Hbuilt as [_ ->]; [by vm_compute|].
  apply NoDup_filter, ascending_NoDup. vm_compute.
  repeat (constructor; [|repeat constructor; done]). constructor.
Defined.

(* the two ways POST /book/new ends *)
Lemma new_booking_cases me fresh f db :
  (new_booking me fresh f db).1 = db
  ∨ ∃ room d st et dates,
      st < et
      ∧ parse_slot f InvalidRoom = pass (room, combine d st, combine d et)
      ∧ booking_dates f d = pass dates.
Proof.
  destruct (parse_slot f InvalidRoom) as [r|[[room start_dt] end_dt]] eqn:Hslot.
  { left. unfold new_booking. by rewrite Hslot. }
  destruct (booking_dates f (dt_date start_dt)) as [r|dates] eqn:Hdates.
  { left. unfold new_booking. rewrite Hslot. simpl. by rewrite Hdates. }
  right. destruct (parse_slot_pass _ _ _ _ _ Hslot)
    as (_ & _ & _ & d & st & et & _ & _ & _ & -> & -> & Hlt).
  exists room, d, st, et, dates. done.
Qed.

(** C8: the Bookings written by one POST /book/new never overlap one
    another: the candidate dates are pairwise distinct, each new Booking
    starts and ends on its own candidate date at the form's start and end
    times of day, and no two of them overlap. *)
Theorem new_booking_created_disjoint me fresh f db :
  (∀ base_date dates, booking_dates f base_date = pass dates → NoDup dates)
  ∧ ∃ new_rows st et,
      rows (new_booking me fresh f db).1 = rows db ++ new_rows
      ∧ NoDup (dates_of new_rows)
      ∧ Forall (λ r, b_start r = combine (dt_date (b_start r)) st
                     ∧ b_end r = combine (dt_date (b_start r)) et) new_rows
      ∧ pairwise_disjoint new_rows.
Proof.
  split; [apply booking_dates_NoDup|].
  destruct (new_booking_cases me fresh f db)
    as [->|(room & d & st & et & dates & Hlt & Hslot & Hdates)].
  { exists [], 0, 0. rewrite app_nil_r. split_and!; [done|constructor|constructor|].
    intros i j r1 r2 _ Hi. by rewrite lookup_nil in Hi. }
  destruct (new_booking_valid me fresh f db _ _ _ _ Hslot Hdates) as (new_rows & -> & Hbuilt).
  simpl in Hbuilt. exists new_rows, st, et.
  assert (Hkept : NoDup (filter (λ d, ¬ create_conflicting room st et db d) dates)).
  { apply NoDup_filter. by eapply booking_dates_NoDup. }
  destruct (built_disjoint _ _ _ _ _ _ _ _ _ Hkept Hbuilt) as [Hdisj Hdates_of].
  simpl. split_and!; [done|by rewrite Hdates_of| |done].
  clear -Hbuilt. induction Hbuilt as [|d' r ? ? Hocc _ IH]; constructor; [|done].
  destruct Hocc as (_ & _ & _ & _ & -> & -> & _). done.
Qed.

(** ** Series edits *)

(* "Delete old series": the rows of [occs] go, by primary key *)
Lemma delete_all occs db :
  foldl (λ db occ, db_delete occ db) db occs
  = mkDb (filter (λ r, b_id r ∉ b_id <$> occs) (rows db)) (next_id db).
Proof.
  revert db. induction occs as [|occ occs IH]; intros db; simpl.
  - destruct db as [l n]. simpl. f_equal. induction l as [|r l IHl]; [done|].
    rewrite filter_cons_True by apply not_elem_of_nil. by f_equal.
  - rewrite IH. simpl. f_equal. rewrite list_filter_filter. apply list_filter_iff.
    intros r. rewrite not_elem_of_cons. tauto.
Qed.

(* "Create new series": one row per date, appended in order *)
Lemma add_all room title account who st et series dates db :
  ∃ new_rows,
    foldl (λ db d, db_add room title account who (combine d st) (combine d et) series db)
          db dates
    = mkDb (rows db ++ new_rows) (next_id db + Z.of_nat (length new_rows))
    ∧ Forall2 (occurrence room title account who st et series) dates new_rows.
Proof.
  revert db. induction dates as [|d dates IH]; intros db; simpl.
  - exists []. rewrite app_nil_r, Z.add_0_r. split; [by destruct db|constructor].
  - destruct (IH (db_add room title account who (combine d st) (combine d et) series db))
      as (new_rows & -> & Hbuilt).
    eexists (_ :: new_rows). split.
    + simpl. rewrite <-app_assoc. simpl. f_equal. lia.
    + constructor; [by repeat split|done].
Qed.

Lemma replace_series_rows occs room title who account st et series_id new_dates db :
  ∃ new_rows,
    rows (replace_series occs room title who account st et series_id new_dates db)
    = filter (λ r, b_id r ∉ b_id <$> occs) (rows db) ++ new_rows
    ∧ Forall2 (occurrence room title account who st et (Some series_id)) new_dates new_rows.
Proof.
  unfold replace_series. rewrite delete_all.
  destruct (add_all room title account who st et (Some series_id) new_dates
              (mkDb (filter (λ r, b_id r ∉ b_id <$> occs) (rows db)) (next_id db)))
    as (new_rows & -> & Hbuilt).
  by exists new_rows.
Qed.

(* the three ways the series path ends: a validation return or a failure
   of the walk, a conflict return (none of them writes anything), or the
   replacement of the series after a pre-check that found no row *)
Lemma edit_series_cases b series_id room new_start new_end f db :
  (∃ r, edit_series b series_id room new_start new_end f db = (db, r)
        ∧ (∀ n, r ≠ SeriesUpdated n) ∧ r ≠ BookingUpdated
        ∧ (∀ conflicts, r ≠ SeriesConflicts conflicts))
  ∨ ∃ anchor W e new_dates,
      let conflicts :=
        series_conflicts room series_id (dt_time new_start) (dt_time new_end) new_dates db in
      (infer_series_pattern (get_series_occurrences series_id db)).1.1 = Some anchor
      ∧ anchor ≤ e
      ∧ expand anchor W e = Some new_dates
      ∧ ((conflicts ≠ []
          ∧ edit_series b series_id room new_start new_end f db = (db, SeriesConflicts conflicts))
         ∨ (conflicts = []
            ∧ edit_series b series_id room new_start new_end f db
              = (replace_series (get_series_occurrences series_id db) room (f_title f)
                                (who_or_None (f_who f)) (b_account b)
                                (dt_time new_start) (dt_time new_end) series_id new_dates db,
                 SeriesUpdated (length new_dates)))).
Proof.
  unfold edit_series.
  destruct (infer_series_pattern _) as [[anchor_date current_days] current_end].
  match goal with |- context [andthen ?m ?k] => destruct (andthen m k) as [r|[[a W] e]] eqn:Hm end.
  - left. exists r. split; [done|].
    unfold andthen, require, pass, reject in Hm.
    repeat (case_match; simplify_eq/=); done.
  - assert (anchor_date = Some a ∧ a ≤ e) as [-> Hae].
    { unfold andthen, require, pass, reject in Hm.
      repeat (case_match; simplify_eq/=); split; (done || lia). }
    destruct (expand a W e) as [new_dates|] eqn:Hexpand; [|left; by exists ServerError].
    right. exists a, W, e, new_dates. simpl. split; [done|]. split; [done|]. split; [done|].
    case_decide as Hc; [by left|right].
    split; [|done]. by destruct (series_conflicts _ _ _ _ _ _).
Qed.

Lemma edit_single_cases b room new_start new_end f db :
  edit_single b room new_start new_end f db = (db, SingleConflict)
  ∨ ∃ db', edit_single b room new_start new_end f db = (db', BookingUpdated).
Proof. unfold edit_single. destruct (single_conflict _ _ _ _ _); eauto. Qed.

(* all-or-nothing at the validation boundary: unless the response is one of
   the two successes, the table is the one the request found *)
Lemma edit_booking_writes_only_on_success booking_id f db :
  (∃ n, (edit_booking booking_id f db).2 = SeriesUpdated n)
  ∨ (edit_booking booking_id f db).2 = BookingUpdated
  ∨ (edit_booking booking_id f db).1 = db.
Proof.
  unfold edit_booking. destruct (get booking_id db) as [b|]; [|by right; right].
  destruct (parse_slot f MissingFields) as [r|[[room new_start] new_end]]; [by right; right|].
  destruct (truthy (b_series_id b)) as [series_id|].
  - destruct (edit_series_cases b series_id room new_start new_end f db)
      as [(r & -> & _)|(a & W & e & new_dates & _ & _ & _ & [[_ ->]|[_ ->]])];
      [by right; right|by right; right|left; by eexists].
  - destruct (edit_single_cases b room new_start new_end f db) as [->|[db' ->]];
      [by right; right|by right; left].
Qed.

(* a reported conflict list is the non-empty list the pre-check computed over
   the new pattern, and the table is untouched *)
Lemma edit_booking_conflicts_untouched booking_id f db db' conflicts :
  edit_booking booking_id f db = (db', SeriesConflicts conflicts) →
  db' = db ∧ conflicts ≠ []
  ∧ ∃ b series_id room new_start new_end anchor W e new_dates,
      get booking_id db = Some b ∧ truthy (b_series_id b) = Some series_id
      ∧ parse_slot f MissingFields = pass (room, new_start, new_end)
      ∧ expand anchor W e = Some new_dates
      ∧ conflicts = series_conflicts room series_id (dt_time new_start) (dt_time new_end)
                                     new_dates db.
Proof.
  unfold edit_booking. destruct (get booking_id db) as [b|] eqn:Hget; [|done].
  destruct (parse_slot f MissingFields) as [r|[[room new_start] new_end]] eqn:Hslot.
  { apply parse_slot_reject in Hslot. intros [= _ ->]. by destruct Hslot as [?|[?|[?|?]]]. }
  destruct (truthy (b_series_id b)) as [series_id|] eqn:Hsid.
  - destruct (edit_series_cases b series_id room new_start new_end f db)
      as [(r & -> & _ & _ & Hr)|(a & W & e & new_dates & _ & _ & Hex & [[Hne ->]|[_ ->]])].
    + intros [= <- ->]. by destruct (Hr conflicts).
    + intros [= <- <-]. split_and!; [done|done|].
      by exists b, series_id, room, new_start, new_end, a, W, e, new_dates.
    + done.
  - destruct (edit_single_cases b room new_start new_end f db) as [->|[? ->]]; done.
Qed.

(* what a successful series edit leaves in the table *)
Lemma edit_booking_series_updated booking_id f db db' n :
  edit_booking booking_id f db = (db', SeriesUpdated n) →
  ∃ b series_id room d st et anchor W e new_dates new_rows,
    get booking_id db = Some b ∧ truthy (b_series_id b) = Some series_id
    ∧ parse_slot f MissingFields = pass (room, combine d st, combine d et) ∧ st < et
    ∧ expand anchor W e = Some new_dates
    ∧ series_conflicts room series_id st et new_dates db = []
    ∧ n = length new_dates
    ∧ rows db' = filter (λ r, b_id r ∉ b_id <$> get_series_occurrences series_id db) (rows db)
                 ++ new_rows
    ∧ Forall2 (occurrence room (f_title f) (b_account b) (who_or_None (f_who f)) st et
                          (Some series_id))
              new_dates new_rows.
Proof.
  unfold edit_booking. destruct (get booking_id db) as [b|] eqn:Hget; [|done].
  destruct (parse_slot f MissingFields) as [r|[[room new_start] new_end]] eqn:Hslot.
  { apply parse_slot_reject in Hslot. intros [= _ ->]. by destruct Hslot as [?|[?|[?|?]]]. }
  destruct (parse_slot_pass _ _ _ _ _ Hslot)
    as (_ & _ & _ & d & st & et & _ & _ & _ & -> & -> & Hlt).
  destruct (truthy (b_series_id b)) as [series_id|] eqn:Hsid.
  - destruct (edit_series_cases b series_id room (combine d st) (combine d et) f db)
      as [(r & -> & Hr & _)|(a & W & e & new_dates & _ & _ & Hex & [[_ ->]|[Hnone ->]])];
      [intros [= <- ->]; by destruct (Hr n)|done|].
    intros [= <- <-]. simpl in *.
    destruct (replace_series_rows (get_series_occurrences series_id db) room (f_title f)
                (who_or_None (f_who f)) (b_account b) st et series_id new_dates db)
      as (new_rows & Hrows & Hbuilt).
    exists b, series_id, room, d, st, et, a, W, e, new_dates, new_rows. done.
  - destruct (edit_single_cases b room (combine d st) (combine d et) f db) as [->|[? ->]]; done.
Qed.

(** C9: every Booking written by POST /book/new, and every Booking written
    by the replacement step of a series edit, starts and ends on one
    calendar date and ends strictly after it starts. *)
Theorem persisted_bookings_same_day :
  (∀ me fresh f db,
     ∃ new_rows, rows (new_booking me fresh f db).1 = rows db ++ new_rows
                 ∧ Forall same_day new_rows)
  ∧ (∀ booking_id f db n,
       (edit_booking booking_id f db).2 = SeriesUpdated n →
       ∃ kept new_rows,
         rows (edit_booking booking_id f db).1 = kept ++ new_rows
         ∧ kept `sublist_of` rows db ∧ length new_rows = n
         ∧ Forall same_day new_rows).
Proof.
  split.
  - intros me fresh f db.
    destruct (new_booking_cases me fresh f db)
      as [->|(room & d & st & et & dates & Hlt & Hslot & Hdates)].
    { exists []. by rewrite app_nil_r. }
    destruct (new_booking_valid me fresh f db _ _ _ _ Hslot Hdates) as (new_rows & -> & Hbuilt).
    exists new_rows. split; [done|]. by eapply built_same_day.
  - intros booking_id f db n Hresp.
    destruct (edit_booking booking_id f db) as [db' resp] eqn:Hedit. simpl in *. subst resp.
    apply edit_booking_series_updated in Hedit
      as (b & sid & room & d & st & et & a & W & e & new_dates & new_rows
          & _ & _ & _ & Hlt & _ & _ & -> & -> & Hbuilt).
    eexists _, new_rows. split_and!; [done|apply sublist_filter| |by eapply built_same_day].
    symmetry. by eapply Forall2_length.
Qed.

Lemma persisted_bookings_same_day_witness :
  ∃ kept new_rows,
    rows (edit_booking 1 extend_form db_series_only).1 = kept ++ new_rows
    ∧ kept `sublist_of` rows db_series_only ∧ length new_rows = 3%nat
    ∧ Forall same_day new_rows.
Proof.
  apply (proj2 persisted_bookings_same_day 1 extend_form db_series_only 3%nat).
  by vm_compute.
Defined.

(** ** The series pre-check against §4.3 *)

(* the pre-check sees exactly the conflicts of §4.3 that come from rows
   carrying a series identifier *)
Lemma series_conflict_vs_spec room series_id sdt edt db :
  is_Some (series_conflict room series_id sdt edt db)
  ↔ ∃ r, r ∈ rows db ∧ b_room r = room ∧ b_series_id r ≠ Some series_id
         ∧ b_series_id r ≠ None ∧ overlaps r sdt edt.
Proof.
  rewrite series_conflict_is_Some. apply exist_proper. intros r. unfold overlaps. split.
  - intros (? & ? & (s & Hs & ?) & ? & ?). rewrite Hs. split_and!; try done. by intros [= ->].
  - intros (? & ? & Hne & Hnull & ? & ?). destruct (b_series_id r) as [s|]; [|done].
    split_and!; try done. exists s. split; [done|]. by intros ->.
Qed.

(* where the room holds no one-off booking, the pre-check and §4.3 agree *)
Lemma series_conflict_agrees room series_id sdt edt db :
  (∀ r, r ∈ rows db → b_room r = room → b_series_id r ≠ None) →
  is_Some (series_conflict room series_id sdt edt db)
  ↔ spec_hasConflict room sdt edt series_id db.
Proof.
  intros Hseries. rewrite series_conflict_vs_spec. unfold spec_hasConflict.
  apply exist_proper. intros r. split; [tauto|].
  intros (Hin & Hroom & ? & ?). split_and!; try done. by apply Hseries.
Qed.

Lemma elem_of_series_conflicts room series_id st et new_dates db d :
  (∀ r, r ∈ rows db → b_room r = room → b_series_id r ≠ None) →
  d ∈ series_conflicts room series_id st et new_dates db
  ↔ d ∈ new_dates ∧ spec_hasConflict room (combine d st) (combine d et) series_id db.
Proof.
  intros Hseries. unfold series_conflicts.
  rewrite list_elem_of_filter, series_conflict_agrees by done. tauto.
Qed.

(** C1 (the code departs from it): series S has occurrences on Mon
    2024-01-01 and Wed 2024-01-03, 10:00-11:00 in the Wetlab; a one-off
    Booking (series identifier null) holds the Wetlab on Mon 2024-01-08,
    10:30-11:30. Extending S to 2024-01-08 makes 2024-01-08 10:00-11:00 a
    candidate occurrence, which overlaps the one-off Booking; the pre-check
    query returns no row for it, the conflict list is empty and the edit goes
    through. *)
Theorem series_edit_misses_one_off :
  let d := d2024_01_01 + 7 in
  let sdt := combine d (hm 10 0) in
  let edt := combine d (hm 11 0) in
  get 1 db_one_off = Some (occ_S 1 d2024_01_01)
  ∧ expand d2024_01_01 {[0; 2]} d = Some [d2024_01_01; d2024_01_01 + 2; d]
  ∧ one_off ∈ rows db_one_off ∧ b_room one_off = wetlab ∧ b_series_id one_off = None
  ∧ overlaps one_off sdt edt
  ∧ series_conflict wetlab series_S sdt edt db_one_off = None
  ∧ (edit_booking 1 extend_form db_one_off).2 = SeriesUpdated 3.
Proof.
  cbv zeta. split_and!; try by vm_compute.
  - unfold db_one_off. simpl. do 2 right. left.
  - vm_compute. split; right; split; done.
Qed.

(* the same edit against a third Booking that belongs to another series is
   rejected, with 2024-01-08 reported and the table untouched *)
Lemma series_edit_detects_other_series :
  edit_booking 1 extend_form db_other_series
  = (db_other_series, SeriesConflicts [d2024_01_01 + 7]).
Proof. by vm_compute. Qed.

(* the query of new_booking does find the one-off Booking for that slot *)
Lemma create_detects_one_off :
  create_conflict wetlab (combine (d2024_01_01 + 7) (hm 10 0))
                  (combine (d2024_01_01 + 7) (hm 11 0)) db_one_off
  = Some one_off.
Proof. by vm_compute. Qed.

(* a row whose series identifier is null is never returned by the pre-check *)
Lemma series_conflict_skips_null room series_id sdt edt db r :
  series_conflict room series_id sdt edt db = Some r → b_series_id r ≠ None.
Proof.
  unfold series_conflict, first. intros Hhead%head_Some_elem_of.
  apply list_elem_of_filter in Hhead as [(_ & Hsql & _) _].
  unfold sql_true, sql_ne in Hsql. by destruct (b_series_id r).
Qed.

(** C2 (the code departs from it): in the same table and for the same edit,
    the candidate date 2024-01-08 of the new pattern conflicts in the sense
    of §4.3 (a Booking of the room with another series identifier overlaps
    it), and yet the edit does not fail: occurrences 1 and 2 of the series
    are deleted and three new ones are written, the last of them overlapping
    the one-off Booking. *)
Theorem series_edit_replaces_despite_conflict :
  let d := d2024_01_01 + 7 in
  expand d2024_01_01 {[0; 2]} d = Some [d2024_01_01; d2024_01_01 + 2; d]
  ∧ spec_hasConflict wetlab (combine d (hm 10 0)) (combine d (hm 11 0)) series_S db_one_off
  ∧ edit_booking 1 extend_form db_one_off
    = (mkDb [one_off; occ_S 4 d2024_01_01; occ_S 5 (d2024_01_01 + 2); occ_S 6 d] 7,
       SeriesUpdated 3)
  ∧ (edit_booking 1 extend_form db_one_off).1 ≠ db_one_off
  ∧ overlaps (occ_S 6 d) (b_start one_off) (b_end one_off).
Proof.
  cbv zeta. split_and!.
  - by vm_compute.
  - exists one_off. split_and!; [unfold db_one_off; simpl; do 2 right; left|done|done|].
    vm_compute. split; right; split; done.
  - by vm_compute.
  - by vm_compute.
  - vm_compute. split; right; split; done.
Qed.

(** ** The overlap test *)

(** C6: each of the three conflict queries (creation, series pre-check,
    single edit) counts a row against a candidate range exactly when the
    row's start is strictly before the candidate's end and the row's end is
    strictly after the candidate's start, next to its own filters on room
    and identity; a range that starts where another ends does not overlap
    it; and the test is symmetric in the two bookings. *)
Theorem conflict_checks_share_overlap :
  (∀ room sdt edt db,
     is_Some (create_conflict room sdt edt db)
     ↔ ∃ r, r ∈ rows db ∧ b_room r = room ∧ dt_lt (b_start r) edt ∧ dt_lt sdt (b_end r))
  ∧ (∀ room series_id sdt edt db,
       is_Some (series_conflict room series_id sdt edt db)
       ↔ ∃ r, r ∈ rows db ∧ b_room r = room
              ∧ (∃ s, b_series_id r = Some s ∧ s ≠ series_id)
              ∧ dt_lt (b_start r) edt ∧ dt_lt sdt (b_end r))
  ∧ (∀ booking_id room new_start new_end db,
       is_Some (single_conflict booking_id room new_start new_end db)
       ↔ ∃ r, r ∈ rows db ∧ b_id r ≠ booking_id ∧ b_room r = room
              ∧ dt_lt (b_start r) new_end ∧ dt_lt new_start (b_end r))
  ∧ (∀ r edt, ¬ overlaps r (b_end r) edt)
  ∧ (∀ r sdt, ¬ overlaps r sdt (b_start r))
  ∧ (∀ r1 r2, overlaps r1 (b_start r2) (b_end r2) ↔ overlaps r2 (b_start r1) (b_end r1)).
Proof.
  split_and!.
  - apply create_conflict_is_Some.
  - apply series_conflict_is_Some.
  - apply single_conflict_is_Some.
  - intros r edt [_ H]. by apply dt_lt_irrefl in H.
  - intros r sdt [H _]. by apply dt_lt_irrefl in H.
  - intros r1 r2. unfold overlaps. tauto.
Qed.

(* §8: [10:00,11:00) and [11:00,12:00) on one day do not overlap *)
Lemma touching_slots_disjoint d i :
  ¬ overlaps (occ_S i d) (combine d (hm 11 0)) (combine d (hm 12 0)).
Proof. intros [_ H]. by apply dt_lt_irrefl in H. Qed.

(** ** The weekly grid *)

(* the Monday on or before a date *)
Lemma monday_of_date d :
  weekday (d - weekday d) = 0 ∧ d - weekday d ≤ d ≤ d - weekday d + 6.
Proof.
  unfold weekday.
  pose proof (Z.div_mod (d + 6) 7 ltac:(done)).
  pose proof (Z.mod_pos_bound (d + 6) 7 ltac:(done)).
  split; [|lia].
  replace (d - (d + 6) `mod` 7 + 6) with ((d + 6) `div` 7 * 7) by lia.
  apply Z.mod_mul. done.
Qed.

Lemma week_bounds_Some start_date monday sunday :
  week_bounds start_date = Some (monday, sunday)
  ↔ monday = start_date - weekday start_date ∧ sunday = monday + 6
    ∧ date_min ≤ sunday ≤ date_max.
Proof.
  unfold week_bounds.
  destruct (date_add (start_date - weekday start_date) 6) as [s|] eqn:Hadd; simpl.
  - apply date_add_Some in Hadd as [-> Hs]. split.
    + intros [= <- <-]. done.
    + intros (-> & -> & _). done.
  - apply date_add_None in Hadd. split; [done|]. intros (-> & -> & ?). done.
Qed.

Lemma week_bounds_monday start_date monday sunday :
  week_bounds start_date = Some (monday, sunday) →
  weekday monday = 0 ∧ sunday = monday + 6 ∧ monday ≤ start_date ≤ sunday.
Proof.
  intros (-> & -> & _)%week_bounds_Some.
  destruct (monday_of_date start_date). done.
Qed.

(* week_bounds raises exactly for the dates whose Sunday is past date.max,
   9999-12-27 to 9999-12-31 *)
Lemma week_bounds_is_Some start_date :
  valid_date start_date →
  is_Some (week_bounds start_date) ↔ start_date ≤ date_max - 5.
Proof.
  unfold valid_date, date_min, date_max. intros Hd.
  pose proof (Z.div_mod (start_date + 6) 7 ltac:(done)) as Hdiv.
  pose proof (Z.mod_pos_bound (start_date + 6) 7 ltac:(done)) as Hmod.
  split.
  - intros [[monday sunday] (-> & -> & Hs)%week_bounds_Some].
    unfold weekday, date_max in Hs. lia.
  - intros Hle. exists (start_date - weekday start_date, start_date - weekday start_date + 6).
    apply week_bounds_Some. unfold weekday, date_min, date_max. split_and!; try done; lia.
Qed.

Lemma week_links_Some week_start prev_week next_week :
  week_links week_start = Some (prev_week, next_week)
  ↔ prev_week = week_start - 7 ∧ next_week = week_start + 7
    ∧ date_min ≤ week_start - 7 ∧ week_start + 7 ≤ date_max.
Proof.
  unfold week_links.
  destruct (date_add week_start (-7)) as [p|] eqn:Hp; simpl.
  - apply date_add_Some in Hp as [-> Hp].
    destruct (date_add week_start 7) as [n|] eqn:Hn; simpl.
    + apply date_add_Some in Hn as [-> Hn]. split.
      * intros [= <- <-]. split_and!; (done || lia).
      * intros (-> & -> & _). done.
    + apply date_add_None in Hn. split; [done|]. unfold date_min, date_max in *. lia.
  - apply date_add_None in Hp. split; [done|]. unfold date_min, date_max in *. lia.
Qed.

(* the page index builds, when it builds one *)
Lemma index_Some start_d db page :
  index start_d db = Some page
  ↔ ∃ week_start,
      week_bounds start_d = Some (week_start, week_start + 6)
      ∧ week_links week_start = Some (week_start - 7, week_start + 7)
      ∧ page = mkPage week_start (week_start + 6)
                      (build_grid week_start (week_start + 6)
                         (week_query (combine week_start time_min)
                                     (combine (week_start + 6) time_max) db))
                      (week_start - 7) (week_start + 7).
Proof.
  unfold index. split.
  - destruct (week_bounds start_d) as [[week_start week_end]|] eqn:Hwb; [|done]. simpl.
    destruct (week_links week_start) as [[prev_week next_week]|] eqn:Hwl; [|done]. simpl.
    intros [= <-]. pose proof Hwb as (_ & -> & _)%week_bounds_Some.
    pose proof Hwl as (-> & -> & _)%week_links_Some. by exists week_start.
  - intros (week_start & -> & Hwl & ->). simpl. by rewrite Hwl.
Qed.

(* index answers with a page exactly from 0001-01-08 to 9999-12-26: before,
   the link to the previous week leaves the calendar; after, the Sunday of
   the week does *)
Lemma index_is_Some start_d db :
  valid_date start_d →
  is_Some (index start_d db) ↔ date_min + 7 ≤ start_d ≤ date_max - 5.
Proof.
  intros Hd.
  pose proof (Z.div_mod (start_d + 6) 7 ltac:(done)) as Hdiv.
  pose proof (Z.mod_pos_bound (start_d + 6) 7 ltac:(done)) as Hmod.
  split.
  - intros [page (week_start & Hwb & Hwl & _)%index_Some].
    apply week_links_Some in Hwl as (_ & _ & Hprev & _).
    assert (is_Some (week_bounds start_d)) as Hle%week_bounds_is_Some by (by eexists); [|done].
    apply week_bounds_Some in Hwb as (-> & _ & _).
    unfold weekday, date_min, date_max in *. lia.
  - intros Hle.
    assert (is_Some (week_bounds start_d)) as [[monday sunday] Hwb].
    { apply week_bounds_is_Some; [done|lia]. }
    pose proof Hwb as (Hmon & -> & _)%week_bounds_Some.
    eexists. apply index_Some. exists monday. split; [done|]. split; [|done].
    apply week_links_Some. subst monday.
    unfold weekday, date_min, date_max in *. split_and!; try done; lia.
Qed.

Lemma lookup_keyed_map `{Countable K} {V} (keys : list K) (f : K → V) (k : K) :
  (list_to_map ((λ k, (k, f k)) <$> keys) : gmap K V) !! k
  = if decide (k ∈ keys) then Some (f k) else None.
Proof.
  induction keys as [|k' keys IH].
  - simpl. by rewrite lookup_empty.
  - rewrite fmap_cons, list_to_map_cons, lookup_insert.
    destruct (decide (k' = k)) as [->|Hk].
    + rewrite decide_True; [done|]. apply elem_of_cons. by left.
    + rewrite IH. destruct (decide (k ∈ keys)).
      * rewrite decide_True; [done|]. apply elem_of_cons. by right.
      * rewrite decide_False; [done|]. rewrite elem_of_cons. intros [?|?]; congruence.
Qed.

Section grid.
Variable week_start : date.
#[local] Abbreviation week_end := (week_start + 6).
#[local] Abbreviation grid_shape := (grid_shape week_start).
#[local] Abbreviation lands := (lands week_start).
Implicit Types grid : gmap string (gmap Z (list Booking)).

Lemma lookup_empty_grid room :
  empty_grid week_start !! room
  = if decide (room ∈ ROOMS)
    then Some (list_to_map ((λ i, (week_start + i, [])) <$> seqZ 0 7))
    else None.
Proof.
  unfold empty_grid.
  apply (lookup_keyed_map ROOMS
           (λ _, list_to_map ((λ i, (week_start + i, [])) <$> seqZ 0 7))).
Qed.

Lemma lookup_empty_week day :
  (list_to_map ((λ i, (week_start + i, [])) <$> seqZ 0 7) : gmap Z (list Booking)) !! day
  = if decide (week_start ≤ day ≤ week_end) then Some [] else None.
Proof.
  replace ((λ i, (week_start + i, [])) <$> seqZ 0 7)
    with ((λ k, (k, @nil Booking)) <$> seqZ week_start 7).
  - rewrite (lookup_keyed_map (seqZ week_start 7) (λ _, [])).
    destruct (decide (day ∈ seqZ week_start 7)) as [Hin|Hin];
      rewrite elem_of_seqZ in Hin.
    + by rewrite decide_True by lia.
    + by rewrite decide_False by lia.
  - assert (seqZ week_start 7 = Z.add week_start <$> seqZ 0 7) as ->
      by (rewrite fmap_add_seqZ; f_equal; lia).
    by rewrite <-list_fmap_compose.
Qed.

Lemma empty_grid_shape : grid_shape (empty_grid week_start).
Proof.
  intros room. rewrite lookup_empty_grid. case_decide as Hroom.
  - split; [by split; [|eexists]|]. intros days [= <-] day. rewrite lookup_empty_week.
    case_decide; [by split; [|eexists]|]. split; [by intros [? ?]|done].
  - split; [split; [by intros [? ?]|done]|done].
Qed.

Lemma bucket_empty_grid room day : bucket (empty_grid week_start) room day = [].
Proof.
  unfold bucket. rewrite lookup_empty_grid. case_decide; [|done].
  rewrite lookup_empty_week. by case_decide.
Qed.

Lemma place_shape grid b : grid_shape grid → grid_shape (place week_start week_end grid b).
Proof.
  intros Hshape. unfold place. case_decide as Hguard; [|done].
  intros room. destruct (Hshape room) as [Hrooms Hdays].
  rewrite lookup_alter_is_Some. split; [done|].
  intros days. rewrite lookup_alter_Some.
  intros [(<- & days' & Hdays' & ->)|[_ Hsame]]; [|by apply Hdays].
  intros day. rewrite lookup_alter_is_Some. by apply Hdays.
Qed.

Lemma bucket_place grid b room day :
  grid_shape grid →
  bucket (place week_start week_end grid b) room day
  = bucket grid room day ++ (if decide (lands room day b) then [b] else []).
Proof.
  intros Hshape. unfold place, bucket, lands. destruct (Hshape (b_room b)) as [Hrooms Hdays].
  case_decide as Hguard.
  - destruct Hguard as [[days Hlook] Hwin]. rewrite lookup_alter.
    destruct (decide (b_room b = room)) as [<-|Hroom].
    + rewrite Hlook. simpl. rewrite lookup_alter. case_decide as Hday.
      * subst day. destruct (Hdays _ Hlook (dt_date (b_start b))) as [_ Hsome].
        destruct (Hsome Hwin) as [l Hl]. unfold date in *. rewrite Hl. simpl.
        rewrite decide_True; [done|]. split; [done|]. split; [done|]. split; [|done].
        apply Hrooms. by eexists.
      * rewrite decide_False by tauto. by rewrite app_nil_r.
    + rewrite decide_False by tauto. by rewrite app_nil_r.
  - rewrite decide_False; [by rewrite app_nil_r|].
    intros (<- & <- & Hr & Hwin). apply Hguard. split; [by apply Hrooms|done].
Qed.

Lemma bucket_place_all bookings grid room day :
  grid_shape grid →
  bucket (foldl (place week_start week_end) grid bookings) room day
  = bucket grid room day ++ filter (lands room day) bookings.
Proof.
  revert grid. induction bookings as [|b bookings IH]; intros grid Hshape; simpl.
  - by rewrite app_nil_r.
  - rewrite IH by by apply place_shape. rewrite bucket_place by done.
    rewrite filter_cons, <-app_assoc. by case_decide.
Qed.

(* each bucket holds, in the order of the input, the bookings that land in it *)
Lemma bucket_build_grid bookings room day :
  bucket (build_grid week_start week_end bookings) room day = filter (lands room day) bookings.
Proof.
  unfold build_grid. rewrite bucket_place_all by apply empty_grid_shape.
  by rewrite bucket_empty_grid.
Qed.

End grid.

Lemma elem_of_order_by_start q b : b ∈ order_by_start q ↔ b ∈ q.
Proof. unfold order_by_start. by rewrite merge_sort_Permutation. Qed.

Lemma order_by_start_ascending q : StronglySorted start_le (order_by_start q).
Proof.
  apply (@StronglySorted_merge_sort _ start_le _ start_le_trans start_le_total).
Qed.

(* a well-formed row that starts inside the week passes the query of index *)
Lemma week_query_keeps week_start b :
  valid_time (dt_time (b_start b)) → dt_le (b_start b) (b_end b) →
  week_start ≤ dt_date (b_start b) ≤ week_start + 6 →
  dt_le (b_start b) (combine (week_start + 6) time_max)
  ∧ dt_le (combine week_start time_min) (b_end b).
Proof.
  unfold valid_time, time_min, time_max. intros Htime Hle Hwin. split.
  - unfold dt_le. simpl. lia.
  - eapply dt_le_trans; [|exact Hle]. unfold dt_le. simpl. lia.
Qed.

(** C7: the weekly grid puts a booking in the bucket of a room and a day
    exactly when the booking's room is that room and is one of ROOMS, and
    the booking's start date is that day and is one of the seven dates from
    the week start on; a booking starting outside the week or in an unknown
    room is in no bucket. This holds for the grid loop over any list of
    bookings, and for the grid index hands to its template over any table of
    well-formed rows (the week start it computes is a Monday); index gets
    that far for every start date from 0001-01-08 to 9999-12-26. *)
Theorem grid_buckets :
  (∀ week_start bookings room day b,
     b ∈ bucket (build_grid week_start (week_start + 6) bookings) room day
     ↔ b ∈ bookings ∧ b_room b = room ∧ dt_date (b_start b) = day
       ∧ room ∈ ROOMS ∧ week_start ≤ day ≤ week_start + 6)
  ∧ (∀ start_d db page room day b,
       index start_d db = Some page →
       let week_start := page_week_start page in
       week_bounds start_d = Some (week_start, week_start + 6)
       ∧ weekday week_start = 0
       ∧ (valid_time (dt_time (b_start b)) → dt_le (b_start b) (b_end b) →
          b ∈ bucket (page_grid page) room day
          ↔ b ∈ rows db ∧ b_room b = room ∧ dt_date (b_start b) = day
            ∧ room ∈ ROOMS ∧ week_start ≤ day ≤ week_start + 6))
  ∧ (∀ start_d db,
       date_min + 7 ≤ start_d ≤ date_max - 5 → is_Some (index start_d db)).
Proof.
  split_and!.
  - intros week_start bookings room day b.
    rewrite bucket_build_grid, list_elem_of_filter. unfold lands. tauto.
  - intros start_d db page room day b (week_start & Hwb & _ & ->)%index_Some. simpl.
    split; [done|]. split; [by apply week_bounds_monday in Hwb as [? _]|].
    intros Htime Hle.
    rewrite bucket_build_grid, list_elem_of_filter. unfold week_query, lands.
    rewrite elem_of_order_by_start, list_elem_of_filter. split; [tauto|].
    intros (Hin & <- & <- & Hroom & Hwin). split_and!; try done; try tauto.
    all: by apply week_query_keeps.
  - intros start_d db Hd. apply index_is_Some; [|done].
    unfold valid_date, date_min, date_max in *. lia.
Qed.

Lemma grid_buckets_witness :
  ∃ page, index (d2024_01_01 + 4) db_one_off = Some page
    ∧ page_week_start page = d2024_01_01
    ∧ (occ_S 2 (d2024_01_01 + 2) ∈ bucket (page_grid page) wetlab (d2024_01_01 + 2)
       ↔ occ_S 2 (d2024_01_01 + 2) ∈ rows db_one_off
         ∧ b_room (occ_S 2 (d2024_01_01 + 2)) = wetlab
         ∧ dt_date (b_start (occ_S 2 (d2024_01_01 + 2))) = d2024_01_01 + 2
         ∧ wetlab ∈ ROOMS
         ∧ page_week_start page ≤ d2024_01_01 + 2 ≤ page_week_start page + 6).
Proof.
  destruct (index (d2024_01_01 + 4) db_one_off) as [page|] eqn:Hindex; [|by vm_compute in Hindex].
  exists page. split; [done|]. split.
  - by injection Hindex as <-.
  - apply (proj1 (proj2 grid_buckets) (d2024_01_01 + 4) db_one_off page wetlab
                 (d2024_01_01 + 2) (occ_S 2 (d2024_01_01 + 2)) Hindex).
    + by vm_compute.
    + vm_compute. right. split; [done|discriminate].
Defined.

(* §8: for the week of 2024-01-01 a booking on 2024-01-10 is in no bucket *)
Lemma outside_week_in_no_bucket bookings room day i :
  occ_S i (d2024_01_01 + 9) ∉ bucket (build_grid d2024_01_01 (d2024_01_01 + 6) bookings) room day.
Proof.
  rewrite bucket_build_grid, list_elem_of_filter. intros [(_ & Hday & _ & Hwin) _].
  simpl in Hday. subst day. unfold d2024_01_01 in Hwin. lia.
Qed.

(** ** The JSON feed *)

(** C10: the list returned by GET /api/bookings is in ascending order of
    start instant; a start or end parameter that does not parse gives the
    same answer as leaving it out; and the rows returned are the rows of the
    table that pass the filter of each parameter that did parse, so a
    parameter that does not parse filters nothing out. *)
Theorem api_bookings_sorted_lenient :
  (∀ start end_ db, StronglySorted start_le (api_bookings start end_ db))
  ∧ (∀ end_ db, api_bookings Malformed end_ db = api_bookings Absent end_ db)
  ∧ (∀ start db, api_bookings start Malformed db = api_bookings start Absent db)
  ∧ (∀ start end_ db b,
       b ∈ api_bookings start end_ db
       ↔ b ∈ rows db
         ∧ (∀ sdt, start = Parsed sdt → dt_le sdt (b_end b))
         ∧ (∀ edt, end_ = Parsed edt → dt_le (b_start b) edt))
  ∧ (∀ db, api_bookings Malformed Malformed db ≡ₚ rows db).
Proof.
  split_and!.
  - intros. apply order_by_start_ascending.
  - done.
  - done.
  - intros start end_ db b. unfold api_bookings. rewrite elem_of_order_by_start.
    destruct start as [| |sdt], end_ as [| |edt]; rewrite ?list_elem_of_filter.
    all: split; [intros; split_and!; try tauto; intros; simplify_eq; tauto|].
    all: intros (Hin & Hs & He); split_and?; auto.
  - intros db. apply merge_sort_Permutation.
Qed.

(** * Further properties *)

(** ** Weeks *)

Lemma weekday_range d : 0 ≤ weekday d ≤ 6.
Proof. unfold weekday. pose proof (Z.mod_pos_bound (d + 6) 7). lia. Qed.

Lemma weekday_from_monday monday k :
  weekday monday = 0 → 0 ≤ k ≤ 6 → weekday (monday + k) = k.
Proof.
  unfold weekday. intros Hmon Hk.
  replace (monday + k + 6) with (k + (monday + 6)) by lia.
  rewrite Z.add_mod, Hmon, Z.add_0_r, Z.mod_mod by done.
  apply Z.mod_small. lia.
Qed.

(** X1: for a date up to 9999-12-26 week_bounds returns the Monday and the
    Sunday of the week of its argument: the first is a Monday, the second is
    six days later, both are dates of the calendar, the argument lies
    between them, and a date has the same bounds exactly when it lies in
    that week. For 9999-12-27 to 9999-12-31 the Sunday is past date.max and
    week_bounds raises. *)
Theorem week_bounds_whole_week (d : date) :
  valid_date d →
  (is_Some (week_bounds d) ↔ d ≤ date_max - 5)
  ∧ ∀ monday sunday,
      week_bounds d = Some (monday, sunday) →
      weekday monday = 0 ∧ sunday = monday + 6 ∧ monday ≤ d ≤ sunday
      ∧ valid_date monday ∧ valid_date sunday
      ∧ ∀ d', monday ≤ d' ≤ sunday ↔ week_bounds d' = Some (monday, sunday).
Proof.
  intros Hd. split; [by apply week_bounds_is_Some|].
  intros monday sunday Hwb.
  destruct (week_bounds_monday _ _ _ Hwb) as (Hmon & Hsun & Hin).
  pose proof Hwb as (Hm & _ & Hs)%week_bounds_Some.
  split; [done|]. split; [done|]. split; [done|].
  split; [subst monday; by apply monday_in_calendar|]. split; [done|].
  intros d'. split.
  - intros Hd'. apply week_bounds_Some.
    assert (weekday d' = d' - monday) as Hwd.
    { replace d' with (monday + (d' - monday)) at 1 by lia.
      apply weekday_from_monday; [done|lia]. }
    rewrite Hwd. split_and!; try done; lia.
  - intros (_ & _ & Hd')%week_bounds_monday. done.
Qed.

Lemma week_bounds_whole_week_witness :
  week_bounds (d2024_01_01 + 4) = Some (d2024_01_01, d2024_01_01 + 6)
  ∧ week_bounds (date_max - 4) = None.
Proof.
  split; [|by vm_compute].
  destruct (week_bounds_whole_week (d2024_01_01 + 4)) as [_ Hweek]; [by vm_compute|].
  destruct (Hweek d2024_01_01 (d2024_01_01 + 6)) as (_ & _ & _ & _ & _ & Hsame);
    [by vm_compute|].
  apply Hsame. by vm_compute.
Defined.

(** ** The walk of the series edit *)

(** X2: the series edit's loop from an anchor to an end date over a weekday
    set raises exactly when the end date is the last date of the calendar
    (and not before the anchor). Otherwise the dates it builds are exactly
    the dates in the range whose weekday is in the set, each once and in
    strictly ascending order; there are at most as many as days in the
    range; and members of the set outside 0..6 select nothing. *)
Theorem expand_walk (anchor end_date : date) (weekdays : gset Z) :
  valid_date anchor →
  (expand anchor weekdays end_date = None ↔ anchor ≤ end_date ∧ date_max ≤ end_date)
  ∧ ∀ dates,
      expand anchor weekdays end_date = Some dates →
      (∀ d, d ∈ dates ↔ anchor ≤ d ≤ end_date ∧ weekday d ∈ weekdays)
      ∧ StronglySorted Z.lt dates
      ∧ (length dates ≤ span anchor end_date)%nat
      ∧ expand anchor (filter (λ w, 0 ≤ w ≤ 6) weekdays) end_date = Some dates.
Proof.
  intros [Hmin Hmax]. split.
  - split.
    + intros Hnone.
      destruct (decide (anchor ≤ end_date ∧ date_max ≤ end_date)) as [|Hno]; [done|].
      rewrite expand_returns in Hnone; [done|lia|lia].
    + intros [? ?]. by apply expand_raises.
  - intros dates Hexpand. pose proof Hexpand as Hloop.
    apply while_days_Some in Hloop as [_ Hend]; [|done].
    apply expand_Some in Hexpand as ->. split_and!.
    + intros d. apply elem_of_spec_expand.
    + apply spec_expand_ascending.
    + unfold spec_expand, span. etrans; [apply length_filter|]. by rewrite length_seqZ.
    + rewrite expand_returns; [|lia|lia]. f_equal.
      unfold spec_expand. apply list_filter_iff. intros d.
      rewrite elem_of_filter. pose proof (weekday_range d). tauto.
Qed.

Lemma expand_walk_witness :
  expand d2024_01_01 {[0; 2]} date_max = None
  ∧ expand d2024_01_01 {[0; 2; 9]} (d2024_01_01 + 7)
    = Some [d2024_01_01; d2024_01_01 + 2; d2024_01_01 + 7].
Proof.
  split.
  - apply (proj1 (expand_walk d2024_01_01 date_max {[0; 2]} ltac:(by vm_compute))).
    by vm_compute.
  - by vm_compute.
Defined.

(** ** Regenerating a series from its inferred pattern *)

Lemma dates_of_nonempty (occs : list Booking) o :
  o ∈ occs → ∃ d ds, (λ o, dt_date (b_start o)) <$> occs = d :: ds.
Proof. destruct occs as [|o' occs]; [by intros ?%elem_of_nil|]. simpl. eauto. Qed.

(** X3: for a non-empty list of occurrences, walking the inferred pattern
    gives exactly the dates between the earliest and the latest occurrence
    that fall on a weekday some occurrence falls on: every existing date is
    among them (and a date deleted from the middle comes back), and
    inferring again from the regenerated dates returns the same pattern.
    The walk returns whenever the latest occurrence is before the last date
    of the calendar. *)
Theorem regenerate_from_inferred (occs : list Booking) (a e : date) (W : gset Z) :
  infer_series_pattern occs = (Some a, W, Some e) →
  (date_min ≤ a → e < date_max → is_Some (expand a W e))
  ∧ ∀ dates,
      expand a W e = Some dates →
      (∀ d, d ∈ dates
            ↔ a ≤ d ≤ e ∧ ∃ d', d' ∈ dates_of occs ∧ weekday d = weekday d')
      ∧ (∀ d, d ∈ dates_of occs → d ∈ dates)
      ∧ (∀ occs', dates_of occs' ≡ₚ dates →
                  infer_series_pattern occs' = (Some a, W, Some e)).
Proof.
  intros (Ha & He & Hbounds & HW)%infer_series_pattern_spec. split.
  { intros Hmin Hmax. rewrite expand_returns; [by eexists|lia|by left]. }
  intros dates Hexpand.
  pose proof (λ d, elem_of_expand W e a dates d Hexpand) as Hdates.
  assert (Hin : ∀ d, d ∈ dates_of occs → d ∈ dates).
  { intros d Hd. apply Hdates. split; [by apply Hbounds|].
    apply HW. by exists d. }
  split_and!; [|done|].
  - intros d. rewrite Hdates, HW. split.
    + intros (? & d' & ? & ?). eauto.
    + intros (? & d' & ? & ?). eauto.
  - intros occs' Hperm. apply infer_series_pattern_spec.
    setoid_rewrite Hperm. split_and!; [by apply Hin|by apply Hin| |].
    + intros d [? _]%Hdates. done.
    + intros w. rewrite HW. split.
      * intros (d & Hd & <-). exists d. split; [by apply Hin|done].
      * intros (d & [_ Hd]%Hdates & <-). by apply HW.
Qed.

Lemma regenerate_from_inferred_witness :
  let occs := [occ_S 1 d2024_01_01; occ_S 2 (d2024_01_01 + 2); occ_S 5 (d2024_01_01 + 14)] in
  (d2024_01_01 + 7 ∉ dates_of occs)
  ∧ ∃ dates, expand d2024_01_01 {[0; 2]} (d2024_01_01 + 14) = Some dates
             ∧ d2024_01_01 + 7 ∈ dates.
Proof.
  cbv zeta. split.
  - apply (bool_decide_unpack _). by vm_compute.
  - destruct (regenerate_from_inferred
                [occ_S 1 d2024_01_01; occ_S 2 (d2024_01_01 + 2); occ_S 5 (d2024_01_01 + 14)]
                d2024_01_01 (d2024_01_01 + 14) {[0; 2]}) as (Hsome & Hwalk); [by vm_compute|].
    destruct Hsome as [dates Hdates]; [by vm_compute|by vm_compute|].
    exists dates. split; [done|].
    destruct (Hwalk dates Hdates) as (Hin & _ & _).
    apply Hin. split; [by vm_compute|]. exists d2024_01_01. split; [left|by vm_compute].
Defined.

(** ** Tables without double bookings *)

Lemma overlaps_sym r1 r2 :
  overlaps r1 (b_start r2) (b_end r2) ↔ overlaps r2 (b_start r1) (b_end r1).
Proof. unfold overlaps. tauto. Qed.

Lemma compatible_sym r1 r2 : compatible r1 r2 → compatible r2 r1.
Proof. unfold compatible. intros H Hroom. rewrite overlaps_sym. by apply H. Qed.

(* position by position, or as a list in which every row is compatible
   with all later ones: the same thing *)
Lemma no_double_booking_sorted l : no_double_booking l ↔ StronglySorted compatible l.
Proof.
  split.
  - induction l as [|r l IH]; intros Hl; constructor.
    + apply IH. intros i j r1 r2 Hij H1 H2. apply (Hl (S i) (S j)); [lia|done|done].
    + apply Forall_forall. intros r' [j Hj]%list_elem_of_lookup.
      exact (Hl O (S j) r r' ltac:(lia) eq_refl Hj).
  - induction 1 as [|r l Hl IH Hr]; intros i j r1 r2 Hij H1 H2.
    { by rewrite lookup_nil in H1. }
    rewrite Forall_forall in Hr. change (compatible r1 r2).
    destruct i as [|i], j as [|j]; simpl in *; simplify_eq.
    + apply Hr. by eapply list_elem_of_lookup_2.
    + apply compatible_sym, Hr. by eapply list_elem_of_lookup_2.
    + exact (IH i j r1 r2 ltac:(lia) H1 H2).
Qed.

Lemma compatible_sublist l l' :
  l' `sublist_of` l → StronglySorted compatible l → StronglySorted compatible l'.
Proof.
  induction 1 as [|r l1 l2 Hsub IH|r l1 l2 Hsub IH]; intros Hl; [done| |].
  - apply StronglySorted_inv in Hl as [Hl Hr]. constructor; [by apply IH|].
    rewrite Forall_forall in Hr |- *. intros r' Hr'. apply Hr. by eapply elem_of_sublist.
  - apply StronglySorted_inv in Hl as [Hl _]. by apply IH.
Qed.

Lemma no_double_booking_sublist l l' :
  l' `sublist_of` l → no_double_booking l → no_double_booking l'.
Proof. rewrite !no_double_booking_sorted. apply compatible_sublist. Qed.

Lemma no_double_booking_app l1 l2 :
  no_double_booking l1 → no_double_booking l2 →
  (∀ r1 r2, r1 ∈ l1 → r2 ∈ l2 → compatible r1 r2) →
  no_double_booking (l1 ++ l2).
Proof. rewrite !no_double_booking_sorted. intros. by apply StronglySorted_app_2. Qed.

Lemma no_double_booking_filter (P : Booking → Prop) `{∀ r, Decision (P r)} l :
  no_double_booking l → no_double_booking (filter P l).
Proof. apply no_double_booking_sublist, sublist_filter. Qed.

(* rows built for distinct dates form a table without double bookings *)
Lemma built_no_double_booking room title account who st et series dates new_rows :
  NoDup dates →
  Forall2 (occurrence room title account who st et series) dates new_rows →
  no_double_booking new_rows.
Proof.
  intros Hnodup Hbuilt. destruct (built_disjoint _ _ _ _ _ _ _ _ _ Hnodup Hbuilt) as [Hdisj _].
  intros i j r1 r2 Hij H1 H2 _. by apply (Hdisj i j).
Qed.

(* one turn of new_booking's loop keeps the table free of double bookings *)
Lemma book_one_no_double_booking room title account who st et series acc d :
  no_double_booking (rows acc.1.1) →
  no_double_booking (rows (book_one room title account who st et series acc d).1.1).
Proof.
  destruct acc as [[db created] conflicts]. simpl. intros Hdb.
  destruct (create_conflict room (combine d st) (combine d et) db) as [hit|] eqn:Hq; [done|].
  simpl. apply no_double_booking_app; [done| |].
  - intros i j r1 r2 Hij H1 H2.
    destruct i, j; simpl in *; try done; by rewrite lookup_nil in *.
  - intros r1 r2 Hr1 ->%list_elem_of_singleton Hroom. simpl in *. intros Hov.
    assert (is_Some (create_conflict room (combine d st) (combine d et) db)) as [? Hsome].
    { apply create_conflict_is_Some. exists r1. by destruct Hov. }
    congruence.
Qed.

Lemma book_all_no_double_booking room title account who st et series dates acc :
  no_double_booking (rows acc.1.1) →
  no_double_booking
    (rows (foldl (book_one room title account who st et series) acc dates).1.1).
Proof.
  revert acc. induction dates as [|d dates IH]; intros acc Hacc; [done|].
  simpl. by apply IH, book_one_no_double_booking.
Qed.

(** X4: POST /book/new never introduces a double booking: if no two rows of
    the table hold one room at overlapping times before the request, none do
    after it, whatever the form. *)
Theorem new_booking_no_double_booking me fresh f db :
  no_double_booking (rows db) → no_double_booking (rows (new_booking me fresh f db).1).
Proof.
  intros Hdb. unfold new_booking.
  destruct (parse_slot f InvalidRoom) as [r|[[room start_dt] end_dt]]; [done|]. simpl.
  destruct (booking_dates f (dt_date start_dt)) as [r|dates]; [done|]. simpl.
  pose proof (book_all_no_double_booking room (f_title f) me (who_or_None (f_who f))
                (dt_time start_dt) (dt_time end_dt)
                (if decide (1 < length dates)%nat then Some fresh else None)
                dates (db, O, []) Hdb) as Hfold.
  by destruct (foldl _ _ dates) as [[db' created] conflicts].
Qed.

Lemma new_booking_no_double_booking_witness :
  no_double_booking (rows (new_booking "mumc" "7e1b-fresh" weekly_form db_one_off).1).
Proof.
  apply new_booking_no_double_booking. apply no_double_booking_sorted.
  apply (bool_decide_unpack _). by vm_compute.
Defined.

(** ** Lookups by primary key and by series *)

Lemma get_Some booking_id db b :
  get booking_id db = Some b → b ∈ rows db ∧ b_id b = booking_id.
Proof.
  unfold get, first. intros Hhead%head_Some_elem_of.
  apply list_elem_of_filter in Hhead. tauto.
Qed.

Lemma get_None booking_id db :
  get booking_id db = None ↔ ∀ r, r ∈ rows db → b_id r ≠ booking_id.
Proof.
  rewrite eq_None_not_Some. unfold get. rewrite first_filter_is_Some. split.
  - intros Hnone r Hr Hid. apply Hnone. by exists r.
  - intros Hall (r & Hr & Hid). by apply (Hall r).
Qed.

Lemma unique_ids_inj db r1 r2 :
  unique_ids db → r1 ∈ rows db → r2 ∈ rows db → b_id r1 = b_id r2 → r1 = r2.
Proof.
  intros Hids [i Hi]%list_elem_of_lookup [j Hj]%list_elem_of_lookup Heq.
  assert (i = j) as ->.
  { apply (NoDup_lookup _ i j (b_id r1) Hids); rewrite list_lookup_fmap.
    - by rewrite Hi.
    - rewrite Hj. simpl. by rewrite Heq. }
  congruence.
Qed.

Lemma sql_eq_true col v : sql_true (sql_eq col v) ↔ col = Some v.
Proof.
  unfold sql_true, sql_eq. destruct col as [x|]; simpl; [|done]. split.
  - intros [= ->%bool_decide_eq_true]. done.
  - intros [= ->]. f_equal. by apply bool_decide_eq_true.
Qed.

Lemma elem_of_get_series_occurrences series_id db r :
  r ∈ get_series_occurrences series_id db ↔ r ∈ rows db ∧ b_series_id r = Some series_id.
Proof.
  unfold get_series_occurrences.
  rewrite elem_of_order_by_start, list_elem_of_filter, sql_eq_true. tauto.
Qed.

Lemma filter_ext_in {A} (P Q : A → Prop) `{∀ x, Decision (P x)} `{∀ x, Decision (Q x)}
      (l : list A) :
  (∀ x, x ∈ l → P x ↔ Q x) → filter P l = filter Q l.
Proof.
  induction l as [|a l IH]; intros Hext; [done|]. rewrite !filter_cons.
  rewrite IH by (intros x Hx; apply Hext; by right).
  destruct (decide (P a)) as [HP|HP]; destruct (decide (Q a)) as [HQ|HQ]; try done.
  - destruct HQ. apply Hext; [left|done].
  - destruct HP. apply Hext; [left|done].
Qed.

Lemma filter_none {A} (P : A → Prop) `{∀ x, Decision (P x)} (l : list A) :
  (∀ x, x ∈ l → ¬ P x) → filter P l = [].
Proof.
  intros Hnone. apply elem_of_nil_inv. intros x [HP Hx]%list_elem_of_filter.
  by apply (Hnone x).
Qed.

Lemma filter_all {A} (P : A → Prop) `{∀ x, Decision (P x)} (l : list A) :
  (∀ x, x ∈ l → P x) → filter P l = l.
Proof.
  induction l as [|a l IH]; intros Hall; [done|].
  rewrite filter_cons_True by (apply Hall; left). f_equal. apply IH.
  intros x Hx. apply Hall. by right.
Qed.

(* the rows a series edit or a series delete keeps are, when primary keys
   are unique, the rows outside the series *)
Lemma kept_rows_other series_id db :
  unique_ids db →
  filter (λ r, b_id r ∉ b_id <$> get_series_occurrences series_id db) (rows db)
  = other_rows series_id db.
Proof.
  intros Hids. unfold other_rows. apply filter_ext_in. intros r Hr. split.
  - intros Hkept Hsid. apply Hkept, list_elem_of_fmap. exists r. split; [done|].
    by apply elem_of_get_series_occurrences.
  - intros Hsid (o & Hid & [Ho Hos]%elem_of_get_series_occurrences)%list_elem_of_fmap.
    apply Hsid. by rewrite (unique_ids_inj db r o Hids Hr Ho Hid).
Qed.

(* whatever the keys, no kept row belongs to the series *)
Lemma kept_rows_not_in_series series_id db r :
  r ∈ filter (λ r, b_id r ∉ b_id <$> get_series_occurrences series_id db) (rows db) →
  b_series_id r ≠ Some series_id.
Proof.
  intros [Hkept Hr]%list_elem_of_filter Hsid. apply Hkept, list_elem_of_fmap.
  exists r. split; [done|]. by apply elem_of_get_series_occurrences.
Qed.

(** ** Answers of the edit *)

(* the booking being edited is one of the occurrences of its own series, so
   the pattern inferred for it has an anchor and at least one weekday *)
Lemma own_series_has_anchor booking_id db b series_id :
  get booking_id db = Some b → truthy (b_series_id b) = Some series_id →
  ∃ a W e, infer_series_pattern (get_series_occurrences series_id db) = (Some a, W, Some e)
           ∧ W ≠ ∅.
Proof.
  intros [Hb _]%get_Some Hsid.
  assert (b ∈ get_series_occurrences series_id db) as Hocc.
  { apply elem_of_get_series_occurrences. split; [done|].
    unfold truthy in Hsid. destruct (b_series_id b) as [s|]; [|done].
    by case_decide; simplify_eq. }
  unfold infer_series_pattern.
  destruct (dates_of_nonempty _ _ Hocc) as (d & ds & ->).
  eexists _, _, _. split; [done|]. apply (non_empty_inhabited_L (weekday d)).
  apply elem_of_weekdays. exists d. split; [left|done].
Qed.

(* a posted list of weekdays that is not empty gives a set that is not empty *)
Lemma int_set_nonempty x repeat_days wds : int_set (x :: repeat_days) = Some wds → wds ≠ ∅.
Proof.
  unfold int_set. simpl. destruct x as [y|]; [|done]. simpl.
  destruct (mapM id repeat_days) as [k|]; [|done]. simpl. intros [= <-].
  apply (non_empty_inhabited_L y). set_solver.
Qed.

Lemma edit_series_never b series_id room new_start new_end f db :
  (∃ a W e, infer_series_pattern (get_series_occurrences series_id db) = (Some a, W, Some e)
            ∧ W ≠ ∅) →
  (edit_series b series_id room new_start new_end f db).2 ≠ NotFound
  ∧ (edit_series b series_id room new_start new_end f db).2 ≠ NoRepeatDay.
Proof.
  intros (a & W & e & Hinfer & HW). unfold edit_series. rewrite Hinfer.
  unfold andthen, require, pass, reject.
  destruct (f_repeat_days f) as [|x repeat_days] eqn:Hdays.
  - repeat (case_match; simplify_eq/=); done.
  - destruct (int_set (x :: repeat_days)) as [wds|] eqn:Hset; [|done].
    apply int_set_nonempty in Hset.
    repeat (case_match; simplify_eq/=); done.
Qed.

(* from an anchor in the calendar the walk raises exactly when its end date
   is the last date of the calendar or later *)
Lemma expand_None a W e :
  date_min ≤ a → a ≤ e → expand a W e = None ↔ date_max ≤ e.
Proof.
  intros Hmin Hae. split.
  - intros Hnone. destruct (decide (date_max ≤ e)) as [|Hlt]; [done|].
    rewrite expand_returns in Hnone; [done|lia|lia].
  - intros Hmax. by apply expand_raises.
Qed.

(* the series path fails on the walk, and only there: the pattern is valid
   and the posted end date is the last date of the calendar *)
Lemma edit_series_server_error b series_id room new_start new_end f db a W e0 :
  infer_series_pattern (get_series_occurrences series_id db) = (Some a, W, Some e0) →
  W ≠ ∅ → date_min ≤ a → a ≤ e0 → e0 < date_max →
  (edit_series b series_id room new_start new_end f db).2 = ServerError
  ↔ (f_repeat_days f = [] ∨ is_Some (int_set (f_repeat_days f)))
    ∧ ∃ e, f_repeat_end f = Parsed e ∧ date_max ≤ e.
Proof.
  intros Hinfer HW Hmin Hae He0. unfold edit_series. rewrite Hinfer.
  unfold andthen, require, pass, reject.
  assert (Hwalk : ∀ W' e,
    a ≤ e →
    (match expand a W' e with
     | Some new_dates =>
         if decide (series_conflicts room series_id (dt_time new_start) (dt_time new_end)
                                     new_dates db ≠ [])
         then (db, SeriesConflicts (series_conflicts room series_id (dt_time new_start)
                                      (dt_time new_end) new_dates db))
         else (replace_series (get_series_occurrences series_id db) room (f_title f)
                 (who_or_None (f_who f)) (b_account b) (dt_time new_start) (dt_time new_end)
                 series_id new_dates db, SeriesUpdated (length new_dates))
     | None => (db, ServerError)
     end).2 = ServerError ↔ date_max ≤ e).
  { intros W' e Hle. rewrite <-(expand_None a W' e) by done.
    destruct (expand a W' e); [|done]. by case_decide. }
  assert (Hdays : ∀ W', W' ≠ ∅ →
    (match
       match (if decide (W' ≠ ∅) then inr () else inl NoRepeatDay) with
       | inl r => inl r
       | inr _ =>
           match
             match f_repeat_end f with
             | Absent => inr (Some e0)
             | Malformed => inl BadRepeatEnd
             | Parsed e => inr (Some e)
             end
           with
           | inl r => inl r
           | inr None => inl EndBeforeAnchor
           | inr (Some e) =>
               match (if decide (¬ e < a) then inr () else inl EndBeforeAnchor) with
               | inl r => inl r
               | inr _ => inr (a, W', e)
               end
           end
       end
     with
     | inl r => (db, r)
     | inr (anchor, repeat_weekdays, new_series_end) =>
         match expand anchor repeat_weekdays new_series_end with
         | Some new_dates =>
             if decide (series_conflicts room series_id (dt_time new_start) (dt_time new_end)
                                         new_dates db ≠ [])
             then (db, SeriesConflicts (series_conflicts room series_id (dt_time new_start)
                                          (dt_time new_end) new_dates db))
             else (replace_series (get_series_occurrences series_id db) room (f_title f)
                     (who_or_None (f_who f)) (b_account b) (dt_time new_start)
                     (dt_time new_end) series_id new_dates db, SeriesUpdated (length new_dates))
         | None => (db, ServerError)
         end
     end).2 = ServerError ↔ ∃ e, f_repeat_end f = Parsed e ∧ date_max ≤ e).
  { intros W' HW'. rewrite decide_True by done.
    destruct (f_repeat_end f) as [| |e] eqn:Hend.
    - rewrite decide_True by lia. rewrite Hwalk by done.
      split; [lia|]. by intros (? & [=] & _).
    - simpl. split; [done|]. by intros (? & [=] & _).
    - destruct (decide (¬ e < a)) as [Hle|Hlt].
      + rewrite Hwalk by lia. split; [by exists e|]. by intros (? & [= <-] & ?).
      + simpl. split; [done|]. intros (? & [= <-] & ?). lia. }
  destruct (f_repeat_days f) as [|x repeat_days] eqn:Hrd.
  - rewrite Hdays by done. split; [intros; split; [by left|done]|tauto].
  - destruct (int_set (x :: repeat_days)) as [wds|] eqn:Hset.
    + rewrite Hdays by by eapply int_set_nonempty.
      split; [intros; split; [right; by eexists|done]|tauto].
    + simpl. split; [done|]. intros [[[=]|[? [=]]] _].
Qed.

Lemma series_rows_bounds series_id db a W e :
  series_before_date_max db →
  infer_series_pattern (get_series_occurrences series_id db) = (Some a, W, Some e) →
  date_min ≤ a ∧ a ≤ e ∧ e < date_max.
Proof.
  unfold series_before_date_max. rewrite Forall_forall.
  intros Hrows (Ha & He & Hbounds & _)%infer_series_pattern_spec.
  assert (∀ d, d ∈ dates_of (get_series_occurrences series_id db) →
               date_min ≤ d < date_max) as Hdates.
  { intros d (r & -> & [Hr Hsid]%elem_of_get_series_occurrences)%list_elem_of_fmap.
    apply Hrows; [done|]. by rewrite Hsid. }
  pose proof (Hdates _ Ha). pose proof (Hdates _ He). pose proof (Hbounds _ Ha). lia.
Qed.

(** X5: POST /book/edit answers 404 exactly when no booking has the id; it
    never answers 'Kies minimaal één herhalingsdag.' (the series of the
    booking being edited always contains that booking, so a weekday exists,
    and an empty selection of weekdays falls back to the inferred ones);
    unless its answer is one of the two successes the table is exactly the
    one the request found. Where every occurrence of a series lies before
    9999-12-31, it fails with a server error exactly when the booking
    belongs to a series, the form is otherwise valid and the posted repeat
    end is 9999-12-31: the walk of the new dates then steps past date.max. *)
Theorem edit_booking_all_or_nothing booking_id f db :
  ((edit_booking booking_id f db).2 = NotFound ↔ get booking_id db = None)
  ∧ (edit_booking booking_id f db).2 ≠ NoRepeatDay
  ∧ ((edit_booking booking_id f db).1 = db
     ∨ (∃ n, (edit_booking booking_id f db).2 = SeriesUpdated n)
     ∨ (edit_booking booking_id f db).2 = BookingUpdated)
  ∧ (series_before_date_max db →
     (edit_booking booking_id f db).2 = ServerError
     ↔ ∃ b series_id slot e,
         get booking_id db = Some b ∧ truthy (b_series_id b) = Some series_id
         ∧ parse_slot f MissingFields = pass slot
         ∧ (f_repeat_days f = [] ∨ is_Some (int_set (f_repeat_days f)))
         ∧ f_repeat_end f = Parsed e ∧ date_max ≤ e).
Proof.
  assert (Hwrites := edit_booking_writes_only_on_success booking_id f db).
  assert (Hnever : get booking_id db ≠ None →
                   (edit_booking booking_id f db).2 ≠ NotFound
                   ∧ (edit_booking booking_id f db).2 ≠ NoRepeatDay).
  { clear Hwrites. unfold edit_booking.
    destruct (get booking_id db) as [b|] eqn:Hget; [intros _|done].
    destruct (parse_slot f MissingFields) as [r|[[room new_start] new_end]] eqn:Hslot.
    { apply parse_slot_reject in Hslot. simpl.
      by destruct Hslot as [-> | [-> | [-> | ->]]]. }
    destruct (truthy (b_series_id b)) as [series_id|] eqn:Hsid.
    - destruct (edit_series_never b series_id room new_start new_end f db)
        as (? & ?); [by eapply own_series_has_anchor|done].
    - by destruct (edit_single_cases b room new_start new_end f db) as [->|[? ->]]. }
  assert (Herror : series_before_date_max db →
     (edit_booking booking_id f db).2 = ServerError
     ↔ ∃ b series_id slot e,
         get booking_id db = Some b ∧ truthy (b_series_id b) = Some series_id
         ∧ parse_slot f MissingFields = pass slot
         ∧ (f_repeat_days f = [] ∨ is_Some (int_set (f_repeat_days f)))
         ∧ f_repeat_end f = Parsed e ∧ date_max ≤ e).
  { clear Hwrites Hnever. intros Hrows. unfold edit_booking.
    destruct (get booking_id db) as [b|] eqn:Hget;
      [|simpl; split; [done|by intros (? & ? & ? & ? & [=] & _)]].
    destruct (parse_slot f MissingFields) as [r|[[room new_start] new_end]] eqn:Hslot.
    { split; [|by intros (? & ? & ? & ? & _ & _ & [=] & _)].
      apply parse_slot_reject in Hslot. simpl.
      by destruct Hslot as [-> | [-> | [-> | ->]]]. }
    destruct (truthy (b_series_id b)) as [series_id|] eqn:Hsid.
    - destruct (own_series_has_anchor _ _ _ _ Hget Hsid) as (a & W & e0 & Hinfer & HW).
      destruct (series_rows_bounds _ _ _ _ _ Hrows Hinfer) as (? & ? & ?).
      rewrite (edit_series_server_error _ _ _ _ _ _ _ a W e0) by done. split.
      + intros [Hdays (e & Hend & He)]. by exists b, series_id, (room, new_start, new_end), e.
      + intros (? & ? & ? & e & _ & _ & _ & Hdays & Hend & He). split; [done|by exists e].
    - split; [|by intros (? & ? & ? & ? & [= <-] & Hs & _); rewrite Hsid in Hs].
      by destruct (edit_single_cases b room new_start new_end f db) as [->|[? ->]]. }
  destruct (get booking_id db) as [b|] eqn:Hget.
  - destruct Hnever as (? & ?); [done|].
    split; [by split|]. split; [done|]. split; [tauto|done].
  - clear Hnever Hwrites. split; [|split; [|split; [|done]]].
    all: unfold edit_booking; rewrite Hget; simpl; try done. by left.
Qed.

(* extending the sample series to 9999-12-31 fails with a server error and
   leaves the table as it was *)
Lemma edit_booking_all_or_nothing_witness :
  edit_booking 1 extend_to_date_max_form db_series_only = (db_series_only, ServerError).
Proof.
  destruct (edit_booking_all_or_nothing 1 extend_to_date_max_form db_series_only)
    as (_ & _ & Hwrites & Herror).
  assert ((edit_booking 1 extend_to_date_max_form db_series_only).2 = ServerError) as Hresp.
  { apply Herror.
    - apply (bool_decide_unpack _). by vm_compute.
    - exists (occ_S 1 d2024_01_01), series_S,
             (wetlab, combine d2024_01_01 (hm 10 0), combine d2024_01_01 (hm 11 0)), date_max.
      split_and!; try by vm_compute. by left. }
  destruct (edit_booking 1 extend_to_date_max_form db_series_only) as [db' resp].
  simpl in *. subst resp. f_equal.
  destruct Hwrites as [?|[[? ?]|?]]; done.
Defined.

(** X6: when a series edit answers with a conflict list, the table is
    untouched, the list is not empty and is in strictly ascending order, and
    each date on it is a date on which some Booking of the form's room that
    belongs to another series overlaps the form's times. *)
Theorem series_conflict_report booking_id f db db' conflicts :
  edit_booking booking_id f db = (db', SeriesConflicts conflicts) →
  db' = db ∧ conflicts ≠ [] ∧ StronglySorted Z.lt conflicts
  ∧ ∃ b series_id room st et,
      get booking_id db = Some b ∧ b_series_id b = Some series_id
      ∧ f_room f = Some room ∧ f_start_time f = Parsed st ∧ f_end_time f = Parsed et
      ∧ ∀ d, d ∈ conflicts →
             ∃ r s, r ∈ rows db ∧ b_room r = room
                    ∧ b_series_id r = Some s ∧ s ≠ series_id
                    ∧ overlaps r (combine d st) (combine d et).
Proof.
  intros (-> & Hne & b & sid & room & new_start & new_end & a & W & e & new_dates
          & Hget & Hsid & Hslot & ->%expand_Some & ->)%edit_booking_conflicts_untouched.
  destruct (parse_slot_pass _ _ _ _ _ Hslot)
    as (_ & Hroom & _ & d0 & st & et & _ & Hst & Het & -> & -> & _).
  split; [done|]. split; [done|]. split.
  { unfold series_conflicts. apply filter_ascending, spec_expand_ascending. }
  exists b, sid, room, st, et. split_and!; try done.
  - unfold truthy in Hsid. destruct (b_series_id b) as [s|]; [|done].
    by case_decide; simplify_eq.
  - intros d [Hhit _]%list_elem_of_filter. simpl in Hhit.
    apply series_conflict_is_Some in Hhit as (r & ? & ? & (s & ? & ?) & ? & ?).
    exists r, s. by repeat split.
Qed.

Lemma series_conflict_report_witness :
  ∃ b series_id room st et,
    get 1 db_other_series = Some b ∧ b_series_id b = Some series_id
    ∧ f_room extend_form = Some room
    ∧ f_start_time extend_form = Parsed st ∧ f_end_time extend_form = Parsed et
    ∧ ∀ d, d ∈ [d2024_01_01 + 7] →
           ∃ r s, r ∈ rows db_other_series ∧ b_room r = room
                  ∧ b_series_id r = Some s ∧ s ≠ series_id
                  ∧ overlaps r (combine d st) (combine d et).
Proof.
  apply (series_conflict_report 1 extend_form db_other_series db_other_series
                                [d2024_01_01 + 7]).
  by vm_compute.
Defined.

(** ** What a successful edit leaves in the table *)

Lemma truthy_Some series series_id : truthy series = Some series_id → series = Some series_id.
Proof. unfold truthy. destruct series as [s|]; [|done]. by case_decide; intros [= <-]. Qed.

Lemma built_in_series room title account who st et series_id dates new_rows :
  Forall2 (occurrence room title account who st et (Some series_id)) dates new_rows →
  Forall (λ r, b_series_id r = Some series_id ∧ b_room r = room ∧ b_account r = account)
         new_rows.
Proof.
  induction 1 as [|d r dates new_rows Hocc _ IH]; constructor; [|done].
  destruct Hocc as (? & _ & ? & _ & _ & _ & ?). done.
Qed.

(** X7: after a successful series edit, with primary keys unique, every row
    outside the series is exactly as before and in the same order, and the
    series consists of as many rows as the answer reports, on strictly
    ascending dates, one per date of the new pattern, each in the form's
    room, within one day, and owned by the account that owned the edited
    booking. *)
Theorem series_edit_replaces_series booking_id f db db' n :
  unique_ids db →
  edit_booking booking_id f db = (db', SeriesUpdated n) →
  ∃ b series_id room,
    get booking_id db = Some b ∧ b_series_id b = Some series_id ∧ f_room f = Some room
    ∧ other_rows series_id db' = other_rows series_id db
    ∧ length (series_rows series_id db') = n
    ∧ StronglySorted Z.lt (dates_of (series_rows series_id db'))
    ∧ Forall (λ r, b_room r = room ∧ b_account r = b_account b ∧ same_day r)
             (series_rows series_id db').
Proof.
  intros Hids (b & sid & room & d & st & et & a & W & e & new_dates & new_rows
               & Hget & Hsid%truthy_Some & Hslot & Hlt & ->%expand_Some & _ & -> & Hrows
               & Hbuilt)%edit_booking_series_updated.
  destruct (parse_slot_pass _ _ _ _ _ Hslot) as (_ & Hroom & _).
  exists b, sid, room. split; [done|]. split; [done|]. split; [done|].
  pose proof (built_in_series _ _ _ _ _ _ _ _ _ Hbuilt) as Hin. rewrite Forall_forall in Hin.
  assert (series_rows sid db' = new_rows) as Hseries.
  { unfold series_rows. rewrite Hrows, filter_app.
    rewrite filter_none by (intros r Hr; by apply kept_rows_not_in_series in Hr).
    simpl. apply filter_all. intros r Hr. by apply Hin. }
  split_and!.
  - unfold other_rows at 1. rewrite Hrows, filter_app, kept_rows_other by done.
    rewrite (filter_none _ new_rows) by (intros r Hr Hne; apply Hne; by apply Hin).
    rewrite app_nil_r. unfold other_rows. apply filter_all.
    by intros r [? _]%list_elem_of_filter.
  - rewrite Hseries. symmetry. by eapply Forall2_length.
  - rewrite Hseries.
    assert (NoDup (spec_expand a W e)) as Hnodup
      by apply ascending_NoDup, spec_expand_ascending.
    destruct (built_disjoint _ _ _ _ _ _ _ _ _ Hnodup Hbuilt) as [_ ->].
    apply spec_expand_ascending.
  - rewrite Hseries. apply Forall_forall. intros r Hr.
    destruct (Hin r Hr) as (_ & ? & ?). split_and!; [done|done|].
    pose proof (built_same_day _ _ _ _ _ _ _ _ _ Hlt Hbuilt) as Hday.
    rewrite Forall_forall in Hday. by apply Hday.
Qed.

Lemma series_edit_replaces_series_witness :
  ∃ b series_id room,
    get 1 db_one_off = Some b ∧ b_series_id b = Some series_id
    ∧ f_room extend_form = Some room
    ∧ other_rows series_id (edit_booking 1 extend_form db_one_off).1
      = other_rows series_id db_one_off
    ∧ length (series_rows series_id (edit_booking 1 extend_form db_one_off).1) = 3%nat
    ∧ StronglySorted Z.lt
        (dates_of (series_rows series_id (edit_booking 1 extend_form db_one_off).1))
    ∧ Forall (λ r, b_room r = room ∧ b_account r = b_account b ∧ same_day r)
             (series_rows series_id (edit_booking 1 extend_form db_one_off).1).
Proof.
  apply (series_edit_replaces_series 1 extend_form db_one_off _ 3%nat).
  - apply (bool_decide_unpack _). by vm_compute.
  - by vm_compute.
Defined.

(** X8: a successful series edit leaves no double booking in a table that
    had none, provided the form's room holds no one-off booking (a row
    without series identifier). *)
Theorem series_edit_no_double_booking booking_id f db db' n room :
  no_double_booking (rows db) →
  f_room f = Some room →
  (∀ r, r ∈ rows db → b_room r = room → b_series_id r ≠ None) →
  edit_booking booking_id f db = (db', SeriesUpdated n) →
  no_double_booking (rows db').
Proof.
  intros Hdb Hroom Hseries
         (b & sid & room' & d & st & et & a & W & e & new_dates & new_rows
          & Hget & Hsid & Hslot & Hlt & ->%expand_Some & Hnone & -> & -> & Hbuilt)
         %edit_booking_series_updated.
  destruct (parse_slot_pass _ _ _ _ _ Hslot) as (_ & Hroom' & _).
  assert (room' = room) as -> by congruence.
  assert (NoDup (spec_expand a W e)) as Hnodup
    by apply ascending_NoDup, spec_expand_ascending.
  apply no_double_booking_app.
  - by apply no_double_booking_filter.
  - by eapply built_no_double_booking.
  - intros r1 r2 Hr1 Hr2 Hsame Hov.
    pose proof (kept_rows_not_in_series _ _ _ Hr1) as Hother.
    apply list_elem_of_filter in Hr1 as [_ Hr1].
    destruct (list_elem_of_lookup_1 _ _ Hr2) as [i Hi].
    destruct (Forall2_lookup_r _ _ _ _ _ Hbuilt Hi) as (d2 & Hd2 & Hocc).
    destruct Hocc as (Hroom2 & _ & _ & _ & Hs2 & He2 & _).
    rewrite Hs2, He2 in Hov. rewrite Hroom2 in Hsame.
    assert (d2 ∈ series_conflicts room sid st et (spec_expand a W e) db) as Hin.
    { unfold series_conflicts. apply list_elem_of_filter. split.
      - apply series_conflict_agrees; [done|]. exists r1.
        split; [done|]. split; [done|]. split; done.
      - by eapply list_elem_of_lookup_2. }
    rewrite Hnone in Hin. by apply elem_of_nil in Hin.
Qed.

Lemma series_edit_no_double_booking_witness :
  no_double_booking (rows (edit_booking 1 extend_form db_series_only).1).
Proof.
  apply (series_edit_no_double_booking 1 extend_form db_series_only _ 3%nat wetlab).
  - apply no_double_booking_sorted, (bool_decide_unpack _). by vm_compute.
  - done.
  - intros r Hr _. apply list_elem_of_In in Hr. simpl in Hr.
    by destruct Hr as [<-|[<-|[]]].
  - by vm_compute.
Defined.

(** ** Single edits *)

Lemma edit_booking_single_updated booking_id f db db' :
  edit_booking booking_id f db = (db', BookingUpdated) →
  ∃ b room d st et,
    get booking_id db = Some b ∧ truthy (b_series_id b) = None
    ∧ parse_slot f MissingFields = pass (room, combine d st, combine d et) ∧ st < et
    ∧ single_conflict (b_id b) room (combine d st) (combine d et) db = None
    ∧ rows db'
      = (λ r, if decide (b_id r = b_id b)
              then edited r room (f_title f) (who_or_None (f_who f))
                          (combine d st) (combine d et)
              else r) <$> rows db.
Proof.
  unfold edit_booking. destruct (get booking_id db) as [b|] eqn:Hget; [|done].
  destruct (parse_slot f MissingFields) as [r|[[room new_start] new_end]] eqn:Hslot.
  { apply parse_slot_reject in Hslot. intros [= _ ->]. by destruct Hslot as [?|[?|[?|?]]]. }
  destruct (parse_slot_pass _ _ _ _ _ Hslot)
    as (_ & _ & _ & d & st & et & _ & _ & _ & -> & -> & Hlt).
  destruct (truthy (b_series_id b)) as [series_id|] eqn:Hsid.
  - destruct (edit_series_cases b series_id room (combine d st) (combine d et) f db)
      as [(r & -> & _ & Hr & _)|(a & W & e & new_dates & _ & _ & _ & [[_ ->]|[_ ->]])];
      [|done|done].
    intros [= _ ->]. done.
  - unfold edit_single.
    destruct (single_conflict (b_id b) room (combine d st) (combine d et) db) eqn:Hq; [done|].
    intros [= <-]. exists b, room, d, st, et. done.
Qed.

Lemma get_fmap_same_id (g : Booking → Booking) booking_id db :
  (∀ r, b_id (g r) = b_id r) →
  get booking_id (mkDb (g <$> rows db) (next_id db)) = g <$> get booking_id db.
Proof.
  intros Hg. unfold get, first. simpl. induction (rows db) as [|r l IH]; [done|].
  rewrite fmap_cons, !filter_cons, Hg. case_decide; [done|]. apply IH.
Qed.

(** X9: a successful single edit rewrites the edited row in place: it keeps
    its primary key, owner and (empty) series identifier and takes the form's
    room, title, person and times; every other booking is found unchanged
    under its own key; the number of rows does not change; and with primary
    keys unique a table without double bookings stays without. *)
Theorem single_edit_in_place booking_id f db db' :
  edit_booking booking_id f db = (db', BookingUpdated) →
  ∃ b room d st et,
    get booking_id db = Some b ∧ truthy (b_series_id b) = None
    ∧ f_room f = Some room ∧ f_date f = Parsed d
    ∧ f_start_time f = Parsed st ∧ f_end_time f = Parsed et
    ∧ get booking_id db'
      = Some (edited b room (f_title f) (who_or_None (f_who f)) (combine d st) (combine d et))
    ∧ (∀ other, other ≠ booking_id → get other db' = get other db)
    ∧ length (rows db') = length (rows db)
    ∧ (unique_ids db → no_double_booking (rows db) → no_double_booking (rows db')).
Proof.
  intros (b & room & d & st & et & Hget & Hsid & Hslot & Hlt & Hq & Hrows)
         %edit_booking_single_updated.
  destruct (parse_slot_pass _ _ _ _ _ Hslot)
    as (_ & Hroom & _ & d' & st' & et' & Hd & Hst & Het & [= <- <-] & [= <-] & _).
  destruct (get_Some _ _ _ Hget) as [Hb Hid].
  set (g := λ r, if decide (b_id r = b_id b)
                 then edited r room (f_title f) (who_or_None (f_who f))
                             (combine d st) (combine d et)
                 else r) in *.
  assert (Hg : ∀ r, b_id (g r) = b_id r) by (intros r; unfold g; by case_decide).
  assert (Hdb' : ∀ k, get k db' = g <$> get k db).
  { intros k. rewrite <-(get_fmap_same_id g k db Hg). unfold get. simpl. by rewrite Hrows. }
  exists b, room, d, st, et. split_and!; try done.
  - rewrite Hdb', Hget. simpl. unfold g. by rewrite decide_True.
  - intros other Hother. rewrite Hdb'. destruct (get other db) as [r|] eqn:Hr; [|done].
    simpl. f_equal. unfold g. destruct (get_Some _ _ _ Hr) as [_ Hrid].
    rewrite decide_False; [done|congruence].
  - by rewrite Hrows, length_fmap.
  - intros Hids Hdb i j r1' r2' Hij H1 H2 Hsame Hov.
    rewrite Hrows, list_lookup_fmap in H1, H2.
    destruct (rows db !! i) as [r1|] eqn:Hi; [|done].
    destruct (rows db !! j) as [r2|] eqn:Hj; [|done].
    simpl in H1, H2. simplify_eq.
    assert (Hfree : ∀ r, r ∈ rows db → b_id r ≠ b_id b → b_room r = room →
                         ¬ overlaps r (combine d st) (combine d et)).
    { intros r Hr Hne Hr_room Hr_ov.
      assert (is_Some (single_conflict (b_id b) room (combine d st) (combine d et) db))
        as [? Hsome]; [|congruence].
      apply single_conflict_is_Some. exists r. by destruct Hr_ov. }
    pose proof (list_elem_of_lookup_2 _ _ _ Hi) as Hr1.
    pose proof (list_elem_of_lookup_2 _ _ _ Hj) as Hr2.
    unfold g in *.
    destruct (decide (b_id r1 = b_id b)) as [E1|E1];
      destruct (decide (b_id r2 = b_id b)) as [E2|E2].
    + apply Hij. eapply (NoDup_lookup _ i j (b_id b) Hids); rewrite list_lookup_fmap.
      * by rewrite Hi, <-E1.
      * by rewrite Hj, <-E2.
    + simpl in *. apply (Hfree r2 Hr2 E2); [done|].
      unfold overlaps in *. simpl in *. tauto.
    + simpl in *. by apply (Hfree r1 Hr1 E1).
    + by apply (Hdb i j r1 r2).
Qed.

Lemma single_edit_in_place_witness :
  ∃ b room d st et,
    get 3 db_one_off = Some b ∧ truthy (b_series_id b) = None
    ∧ f_room move_form = Some room ∧ f_date move_form = Parsed d
    ∧ f_start_time move_form = Parsed st ∧ f_end_time move_form = Parsed et
    ∧ get 3 (edit_booking 3 move_form db_one_off).1
      = Some (edited b room (f_title move_form) (who_or_None (f_who move_form))
                     (combine d st) (combine d et))
    ∧ (∀ other, other ≠ 3 → get other (edit_booking 3 move_form db_one_off).1
                            = get other db_one_off)
    ∧ length (rows (edit_booking 3 move_form db_one_off).1) = length (rows db_one_off)
    ∧ (unique_ids db_one_off → no_double_booking (rows db_one_off) →
       no_double_booking (rows (edit_booking 3 move_form db_one_off).1)).
Proof.
  apply (single_edit_in_place 3 move_form db_one_off). by vm_compute.
Defined.

(** X10: posting a one-off booking back with its own room and times is never
    refused as a conflict: in a table without double bookings the booking's
    own row is the only one its slot can overlap, and the query leaves that
    row out. *)
Theorem own_slot_never_conflicts booking_id f db b :
  no_double_booking (rows db) →
  get booking_id db = Some b → truthy (b_series_id b) = None →
  parse_slot f MissingFields = pass (b_room b, b_start b, b_end b) →
  (edit_booking booking_id f db).2 = BookingUpdated.
Proof.
  intros Hdb Hget Hsid Hslot. unfold edit_booking. rewrite Hget, Hslot. simpl.
  rewrite Hsid. unfold edit_single.
  destruct (single_conflict (b_id b) (b_room b) (b_start b) (b_end b) db) as [hit|] eqn:Hq;
    [|done].
  assert (is_Some (single_conflict (b_id b) (b_room b) (b_start b) (b_end b) db)) as Hsome
    by (rewrite Hq; by eexists).
  apply single_conflict_is_Some in Hsome as (r & Hr & Hne & Hroom & Hov1 & Hov2).
  destruct (get_Some _ _ _ Hget) as [Hb _].
  destruct (list_elem_of_lookup_1 _ _ Hr) as [i Hi].
  destruct (list_elem_of_lookup_1 _ _ Hb) as [j Hj].
  destruct (Hdb i j r b); [|done|done|done|by split].
  intros ->. congruence.
Qed.

Lemma own_slot_never_conflicts_witness :
  (edit_booking 3 resubmit_form db_one_off).2 = BookingUpdated.
Proof.
  apply (own_slot_never_conflicts 3 resubmit_form db_one_off one_off).
  - apply no_double_booking_sorted, (bool_decide_unpack _). by vm_compute.
  - by vm_compute.
  - by vm_compute.
  - by vm_compute.
Defined.

(** ** Deleting *)

Lemma delete_series_rows series_id db :
  rows (delete_series series_id db).1
  = filter (λ r, b_id r ∉ b_id <$> filter (λ r, sql_true (sql_eq (b_series_id r) series_id))
                                          (rows db)) (rows db)
  ∧ next_id (delete_series series_id db).1 = next_id db.
Proof. unfold delete_series. simpl. by rewrite delete_all. Qed.

Lemma series_rows_sql series_id db :
  filter (λ r, sql_true (sql_eq (b_series_id r) series_id)) (rows db) = series_rows series_id db.
Proof. unfold series_rows. apply list_filter_iff. intros r. apply sql_eq_true. Qed.

Lemma series_rows_deleted series_id db :
  series_rows series_id (delete_series series_id db).1 = [].
Proof.
  unfold series_rows. destruct (delete_series_rows series_id db) as [-> _].
  apply filter_none. intros r [Hkept Hr]%list_elem_of_filter Hsid.
  apply Hkept, list_elem_of_fmap. exists r. split; [done|].
  apply list_elem_of_filter. split; [by apply sql_eq_true|done].
Qed.

(** X11: deleting a series removes every row that carries the series
    identifier and reports how many there were; with primary keys unique all
    other rows stay, in order; a second delete of the same series reports 0
    and changes nothing (an unknown series identifier is no error); and a
    table without double bookings stays without. *)
Theorem delete_series_removes_series series_id db :
  series_rows series_id (delete_series series_id db).1 = []
  ∧ (delete_series series_id db).2 = length (series_rows series_id db)
  ∧ (unique_ids db → rows (delete_series series_id db).1 = other_rows series_id db)
  ∧ delete_series series_id (delete_series series_id db).1
    = ((delete_series series_id db).1, 0%nat)
  ∧ (no_double_booking (rows db) → no_double_booking (rows (delete_series series_id db).1)).
Proof.
  split_and!.
  - apply series_rows_deleted.
  - unfold delete_series. simpl. by rewrite series_rows_sql.
  - intros Hids. destruct (delete_series_rows series_id db) as [-> _].
    unfold other_rows. apply filter_ext_in. intros r Hr. split.
    + intros Hkept Hsid. apply Hkept, list_elem_of_fmap. exists r. split; [done|].
      apply list_elem_of_filter. split; [by apply sql_eq_true|done].
    + intros Hsid (o & Hid & [Hos%sql_eq_true Ho]%list_elem_of_filter)%list_elem_of_fmap.
      apply Hsid. by rewrite (unique_ids_inj db r o Hids Hr Ho Hid).
  - pose proof (series_rows_deleted series_id db) as Hgone.
    set (db1 := (delete_series series_id db).1) in *.
    unfold delete_series at 1. rewrite series_rows_sql, Hgone. simpl. by destruct db1.
  - destruct (delete_series_rows series_id db) as [-> _]. apply no_double_booking_filter.
Qed.

Lemma one_row_per_id db b :
  unique_ids db → b ∈ rows db → length (filter (λ r, b_id r = b_id b) (rows db)) = 1%nat.
Proof.
  unfold unique_ids. induction (rows db) as [|r l IH]; intros Hids Hb.
  { by apply elem_of_nil in Hb. }
  rewrite fmap_cons in Hids. apply NoDup_cons in Hids as [Hr Hl].
  rewrite filter_cons. destruct (decide (b_id r = b_id b)) as [Heq|Hne].
  - simpl. f_equal. rewrite filter_none; [done|]. intros r' Hr' Hid.
    apply Hr, list_elem_of_fmap. exists r'. split; [congruence|done].
  - apply IH; [done|]. apply elem_of_cons in Hb as [->|Hb]; done.
Qed.

(** X12: deleting a booking answers 404 exactly when no booking has the id
    and then changes nothing; otherwise the id is gone afterwards, every
    other booking is found unchanged under its own key, with primary keys
    unique exactly one row has been removed, and a table without double
    bookings stays without. *)
Theorem delete_booking_removes_row booking_id db :
  (delete_booking booking_id db = None ↔ get booking_id db = None)
  ∧ ∀ db', delete_booking booking_id db = Some db' →
           get booking_id db' = None
           ∧ (∀ other, other ≠ booking_id → get other db' = get other db)
           ∧ (unique_ids db → length (rows db) = S (length (rows db')))
           ∧ (no_double_booking (rows db) → no_double_booking (rows db')).
Proof.
  unfold delete_booking. split.
  - by destruct (get booking_id db).
  - intros db'. destruct (get booking_id db) as [b|] eqn:Hget; [|done].
    intros [= <-]. destruct (get_Some _ _ _ Hget) as [Hb Hid]. simpl. split_and!.
    + apply get_None. intros r [Hne _]%list_elem_of_filter. congruence.
    + intros other Hother. unfold get. simpl. rewrite list_filter_filter. f_equal.
      apply list_filter_iff. intros r. split; [tauto|]. intros <-. split; [done|congruence].
    + intros Hids. pose proof (one_row_per_id db b Hids Hb) as Hone.
      pose proof (filter_split_length (λ r, b_id r = b_id b) (rows db)) as Hsplit.
      rewrite Hone in Hsplit.
      assert (length (rows db) ≠ 0%nat)
        by (destruct (rows db); [by apply elem_of_nil in Hb|done]).
      rewrite Hsplit. lia.
    + apply no_double_booking_filter.
Qed.

Lemma delete_booking_removes_row_witness :
  get 2 (db_delete (occ_S 2 (d2024_01_01 + 2)) db_one_off) = None
  ∧ (∀ other, other ≠ 2 →
              get other (db_delete (occ_S 2 (d2024_01_01 + 2)) db_one_off)
              = get other db_one_off)
  ∧ (unique_ids db_one_off →
     length (rows db_one_off)
     = S (length (rows (db_delete (occ_S 2 (d2024_01_01 + 2)) db_one_off))))
  ∧ (no_double_booking (rows db_one_off) →
     no_double_booking (rows (db_delete (occ_S 2 (d2024_01_01 + 2)) db_one_off))).
Proof.
  apply (proj2 (delete_booking_removes_row 2 db_one_off)). by vm_compute.
Defined.

(** ** Order within the grid *)

Lemma sorted_sublist {A} (R : relation A) (l l' : list A) :
  l' `sublist_of` l → StronglySorted R l → StronglySorted R l'.
Proof.
  induction 1 as [|r l1 l2 Hsub IH|r l1 l2 Hsub IH]; intros Hl; [done| |].
  - apply StronglySorted_inv in Hl as [Hl Hr]. constructor; [by apply IH|].
    rewrite Forall_forall in Hr |- *. intros r' Hr'. apply Hr. by eapply elem_of_sublist.
  - apply StronglySorted_inv in Hl as [Hl _]. by apply IH.
Qed.

(** X13: on the index page every bucket of the grid lists its bookings in
    ascending order of start instant, each booking of the table at most as
    often as the table holds it. *)
Theorem grid_bucket_ordered start_d db page room day :
  index start_d db = Some page →
  StronglySorted start_le (bucket (page_grid page) room day)
  ∧ bucket (page_grid page) room day ⊆+ rows db.
Proof.
  intros (week_start & _ & _ & ->)%index_Some. simpl.
  rewrite bucket_build_grid. split.
  - eapply sorted_sublist; [apply sublist_filter|]. apply order_by_start_ascending.
  - etrans; [apply sublist_submseteq, sublist_filter|]. unfold week_query.
    etrans; [apply Permutation_submseteq, merge_sort_Permutation|].
    apply sublist_submseteq, sublist_filter.
Qed.

Lemma grid_bucket_ordered_witness :
  ∃ page, index (d2024_01_01 + 4) db_one_off = Some page
          ∧ StronglySorted start_le (bucket (page_grid page) wetlab d2024_01_01)
          ∧ bucket (page_grid page) wetlab d2024_01_01 ⊆+ rows db_one_off.
Proof.
  destruct (index (d2024_01_01 + 4) db_one_off) as [page|] eqn:Hindex; [|by vm_compute in Hindex].
  exists page. split; [done|].
  apply (grid_bucket_ordered (d2024_01_01 + 4) db_one_off page wetlab d2024_01_01 Hindex).
Defined.

(** ** The week shown *)

Lemma weekday_shift d k : weekday (d + k * 7) = weekday d.
Proof. unfold weekday. replace (d + k * 7 + 6) with (d + 6 + k * 7) by lia. apply Z.mod_add. done. Qed.

(* the page of the week that starts on a given Monday *)
Lemma index_of_monday monday db page :
  weekday monday = 0 → index monday db = Some page →
  page_week_start page = monday ∧ page_week_end page = monday + 6
  ∧ page_prev_week page = monday - 7 ∧ page_next_week page = monday + 7.
Proof.
  intros Hmon (week_start & (-> & _)%week_bounds_Some & _ & ->)%index_Some. simpl.
  rewrite Hmon. split_and!; lia.
Qed.

(** X14: index computes its week, grid and links exactly when the date it
    is asked for lies from 0001-01-08 to 9999-12-26 (before, the link to the
    previous week leaves the calendar; after, the Sunday of the week does;
    either raises an OverflowError). The week it shows runs from a Monday to the Sunday
    after it and contains the jump date when one was given and parsed, else
    the week_start parameter when it was given and parsed, and today in every
    other case; the two links of the page are the Mondays of the week before
    and the week after, and on the pages they lead to, the opposite link
    leads back. *)
Theorem shown_week jump_date week_start today db :
  let shown := requested_date jump_date week_start today in
  valid_date shown →
  (is_Some (index (shown_date jump_date week_start today) db)
   ↔ date_min + 7 ≤ shown ≤ date_max - 5)
  ∧ ∀ page,
      index (shown_date jump_date week_start today) db = Some page →
      let monday := page_week_start page in
      weekday monday = 0 ∧ page_week_end page = monday + 6
      ∧ monday ≤ shown ≤ monday + 6
      ∧ page_prev_week page = monday - 7 ∧ page_next_week page = monday + 7
      ∧ week_bounds (page_prev_week page) = Some (monday - 7, monday - 1)
      ∧ (∀ page', index (page_prev_week page) db = Some page' →
                  page_week_start page' = monday - 7 ∧ page_next_week page' = monday)
      ∧ (∀ page', index (page_next_week page) db = Some page' →
                  page_week_start page' = monday + 7 ∧ page_prev_week page' = monday).
Proof.
  cbv zeta. intros Hvalid.
  set (shown := requested_date jump_date week_start today) in *.
  assert (shown_date jump_date week_start today = shown
          ∨ shown_date jump_date week_start today = shown - weekday shown) as Hshown.
  { unfold shown, requested_date, shown_date.
    destruct jump_date as [| |target]; [|by left|by right]. by destruct week_start; left. }
  assert (weekday (shown_date jump_date week_start today - weekday (shown_date jump_date week_start today)) = 0
          ∧ shown_date jump_date week_start today
            - weekday (shown_date jump_date week_start today) = shown - weekday shown) as [Hmon Hsame].
  { destruct Hshown as [-> | ->]; [split; [apply monday_of_date|done]|].
    destruct (monday_of_date shown) as [-> _]. rewrite Z.sub_0_r.
    split; [|done]. apply monday_of_date. }
  split.
  - pose proof (Z.div_mod (shown + 6) 7 ltac:(done)) as Hdiv.
    pose proof (Z.mod_pos_bound (shown + 6) 7 ltac:(done)) as Hmod.
    destruct Hshown as [-> | ->]; [by apply index_is_Some|].
    rewrite index_is_Some by by apply monday_in_calendar.
    unfold weekday, valid_date, date_min, date_max in *. lia.
  - intros page (monday & Hwb & Hwl & ->)%index_Some. simpl.
    pose proof Hwb as (Hmonday & _ & Hsunday)%week_bounds_Some.
    rewrite Hsame in Hmonday. subst monday.
    apply week_links_Some in Hwl as (_ & _ & Hprev & Hnext).
    destruct (monday_of_date shown) as [Hwd Hin].
    set (monday := shown - weekday shown) in *.
    assert (weekday (monday - 7) = 0) as Hwdp.
    { replace (monday - 7) with (monday + (-1) * 7) by lia. by rewrite weekday_shift. }
    assert (weekday (monday + 7) = 0) as Hwdn.
    { replace (monday + 7) with (monday + 1 * 7) by lia. by rewrite weekday_shift. }
    split; [done|]. split; [done|]. split; [done|]. split; [done|]. split; [done|].
    split; [|split].
    + apply week_bounds_Some. rewrite Hwdp.
      unfold date_min, date_max in *. split; [lia|]. split; lia.
    + intros page' (-> & _ & _ & ->)%index_of_monday; [|done]. split; [done|lia].
    + intros page' (-> & _ & -> & _)%index_of_monday; [|done]. split; [done|lia].
Qed.

Lemma shown_week_witness :
  is_Some (index (shown_date (Parsed (d2024_01_01 + 4)) Absent d2024_01_01) db_one_off)
  ∧ ¬ is_Some (index (shown_date Absent (Parsed (date_min + 2)) d2024_01_01) db_one_off)
  ∧ ¬ is_Some (index (shown_date Absent Absent (date_max - 4)) db_one_off).
Proof.
  split_and!.
  - apply (proj1 (shown_week (Parsed (d2024_01_01 + 4)) Absent d2024_01_01 db_one_off
                             ltac:(by vm_compute))).
    by vm_compute.
  - intros [page Hpage]. by vm_compute in Hpage.
  - intros [page Hpage]. by vm_compute in Hpage.
Defined.

(** ** Accounts *)

Lemma find_user_Some uname users u :
  find_user uname users = Some u → u ∈ users ∧ u_username u = uname.
Proof.
  unfold find_user, first. intros Hhead%head_Some_elem_of.
  apply list_elem_of_filter in Hhead. tauto.
Qed.

Lemma find_user_is_Some uname users :
  is_Some (find_user uname users) ↔ uname ∈ u_username <$> users.
Proof.
  unfold find_user. rewrite first_filter_is_Some, list_elem_of_fmap. split.
  - intros (u & ? & <-). by exists u.
  - intros (u & -> & ?). by exists u.
Qed.

Lemma find_user_app uname users more :
  is_Some (find_user uname users) → find_user uname (users ++ more) = find_user uname users.
Proof.
  unfold find_user, first. rewrite filter_app. intros [u Hu].
  destruct (filter _ users); [done|]. done.
Qed.

Section seeding.
Variable generate_password_hash : string → string.
Variable env : string → option string.

#[local] Abbreviation has_password := (has_password env).

Lemma seed_one_cases users spec :
  (seed_one generate_password_hash env users spec = users
   ∧ (has_password spec → is_Some (find_user (username spec) users)))
  ∨ (∃ pw, env (env_pass spec) = Some pw ∧ pw ≠ EmptyString
           ∧ find_user (username spec) users = None
           ∧ seed_one generate_password_hash env users spec
             = users ++ [mkUser (Z.of_nat (length users) + 1) (username spec) (display spec)
                                (color spec) (generate_password_hash pw)]).
Proof.
  unfold seed_one, has_password. destruct (env (env_pass spec)) as [pw|] eqn:Henv.
  - case_decide as Hpw.
    + left. split; [done|]. intros (pw' & [= <-] & ?). done.
    + destruct (find_user (username spec) users) eqn:Hfind.
      * left. split; [done|]. by eexists.
      * right. by exists pw.
  - left. split; [done|]. by intros (pw & [=] & _).
Qed.

(* seeding a list of definitions: old rows stay in front, usernames stay
   unique, new rows come from definitions with a password, and every such
   definition has its account afterwards *)
Lemma seed_all defs users :
  let users' := foldl (seed_one generate_password_hash env) users defs in
  users `prefix_of` users'
  ∧ (unique_usernames users → unique_usernames users')
  ∧ (∀ u, u ∈ users' → u ∈ users ∨
          ∃ spec pw, spec ∈ defs ∧ env (env_pass spec) = Some pw ∧ pw ≠ EmptyString
                     ∧ u_username u = username spec ∧ u_display_name u = display spec
                     ∧ u_color u = color spec
                     ∧ u_password_hash u = generate_password_hash pw)
  ∧ (∀ spec, spec ∈ defs → has_password spec → is_Some (find_user (username spec) users')).
Proof.
  revert users. induction defs as [|spec defs IH]; intros users; simpl.
  { split_and!; [done|done|by left|]. by intros spec Hspec%elem_of_nil. }
  destruct (IH (seed_one generate_password_hash env users spec)) as (Hpre & Huniq & Hfrom & Hall).
  destruct (seed_one_cases users spec) as [[Hsame Hhas]|(pw & Henv & Hpw & Hfind & Hadd)].
  - rewrite Hsame in *. split_and!; [done|done| |].
    + intros u [?|(spec' & pw & ? & ?)]%Hfrom; [by left|right].
      exists spec', pw. split; [by right|done].
    + intros spec' [->|Hspec']%elem_of_cons Hpw'; [|by apply Hall].
      destruct Hpre as [more ->]. rewrite find_user_app; by apply Hhas.
  - rewrite Hadd in *. split_and!.
    + etrans; [|exact Hpre]. by apply prefix_app_r.
    + intros Hu. apply Huniq. unfold unique_usernames in *.
      rewrite fmap_app. apply NoDup_app. split; [done|]. split; [|apply NoDup_singleton].
      intros uname Hin ->%list_elem_of_singleton. simpl in *.
      apply find_user_is_Some in Hin. rewrite Hfind in Hin. by destruct Hin.
    + intros u [[?| ->%list_elem_of_singleton]%elem_of_app|(spec' & pw' & ? & ?)]%Hfrom.
      * by left.
      * right. exists spec, pw. split; [left|done].
      * right. exists spec', pw'. split; [by right|done].
    + intros spec' [->|Hspec']%elem_of_cons Hpw'; [|by apply Hall].
      destruct Hpre as [more ->]. rewrite find_user_app.
      * apply find_user_is_Some. rewrite fmap_app. apply elem_of_app. right. by left.
      * apply find_user_is_Some. rewrite fmap_app. apply elem_of_app. right. by left.
Qed.

(* seeding changes nothing when every definition with a password has its account *)
Lemma seed_all_fixed hash' defs users :
  (∀ spec, spec ∈ defs → has_password spec → is_Some (find_user (username spec) users)) →
  foldl (seed_one hash' env) users defs = users.
Proof.
  induction defs as [|spec defs IH]; intros Hall; [done|]. simpl.
  assert (seed_one hash' env users spec = users) as ->.
  { unfold seed_one. destruct (env (env_pass spec)) as [pw|] eqn:Henv; [|done].
    case_decide; [done|].
    destruct (Hall spec) as [u ->]; [left|by exists pw|done]. }
  apply IH. intros spec' Hspec'. apply Hall. by right.
Qed.

End seeding.

(** X15: seed_users_from_env leaves every existing account as it is and in
    front, and keeps usernames unique; every account it adds comes from an
    entry of ACCOUNT_DEFS whose environment password is set and not empty,
    with that entry's username, display name and colour and the hash of that
    password; afterwards every such entry has its account; and seeding a
    second time (whatever hashes it would draw) changes nothing. *)
Theorem seed_users_from_env_idempotent hash hash' env users :
  let users' := seed_users_from_env hash env users in
  users `prefix_of` users'
  ∧ (unique_usernames users → unique_usernames users')
  ∧ (∀ u, u ∈ users' → u ∈ users ∨
          ∃ spec pw, spec ∈ ACCOUNT_DEFS ∧ env (env_pass spec) = Some pw ∧ pw ≠ EmptyString
                     ∧ u_username u = username spec ∧ u_display_name u = display spec
                     ∧ u_color u = color spec ∧ u_password_hash u = hash pw)
  ∧ (∀ spec pw, spec ∈ ACCOUNT_DEFS → env (env_pass spec) = Some pw → pw ≠ EmptyString →
                is_Some (find_user (username spec) users'))
  ∧ seed_users_from_env hash' env users' = users'.
Proof.
  cbv zeta. unfold seed_users_from_env.
  destruct (seed_all hash env ACCOUNT_DEFS users) as (Hpre & Huniq & Hfrom & Hall).
  split_and!; [done|done|done| |].
  - intros spec pw Hspec Henv Hpw. apply Hall; [done|]. by exists pw.
  - by apply seed_all_fixed.
Qed.

(** ** Logging in *)

(** X16: when POST /login succeeds for a non-empty username, the session is
    marked as logged in, the account it names exists, has the username that
    was posted and a stored hash that the posted password passes, and is the
    account the booking routes will act for; when it fails, the session is
    left as it was. *)
Theorem login_names_account hash check_hash env form_username form_password s users :
  let '(users', s', ok) := login hash check_hash env form_username form_password s users in
  (ok = false → s' = s)
  ∧ (ok = true → form_username ≠ EmptyString →
     ∃ me, logged_in s' users' = inr me
           ∧ current_user s' users' = Some me
           ∧ me ∈ users' ∧ u_username me = form_username
           ∧ check_hash (u_password_hash me) form_password = true).
Proof.
  unfold login. set (users' := ensure_users hash env users).
  destruct (find_user form_username users') as [user|] eqn:Hfind; [|done].
  destruct (check_hash (u_password_hash user) form_password) eqn:Hcheck; [|done].
  split; [done|]. intros _ Hname. destruct (find_user_Some _ _ _ Hfind) as [Hin Huser].
  exists user. unfold logged_in, current_user. simpl.
  rewrite Huser, decide_False, Hfind by done. done.
Qed.

(** ** The login tests of the routes *)

Lemma logged_in_inr s users me :
  logged_in s users = inr me →
  s_authed s = true ∧ current_user s users = Some me ∧ s_user s = Some (u_username me).
Proof.
  unfold logged_in. destruct (s_authed s); [|done].
  destruct (current_user s users) as [u|] eqn:Hcur; [|done]. intros [= <-].
  split; [done|]. split; [done|]. unfold current_user in Hcur.
  destruct (s_user s) as [uname|]; [|done]. case_decide; [done|].
  apply find_user_Some in Hcur as [_ <-]. done.
Qed.

(** X17: the booking table changes only for a session marked as logged in:
    /book/new, /book/edit and the series delete further require that the
    session's username names an existing account, and the first two that the
    request is a POST; the single delete asks for the login mark alone. A
    session whose account no longer exists is cleared by the first three. *)
Theorem routes_write_only_when_logged_in s users :
  (∀ m fresh f db,
     (new_booking_route m s users fresh f db).1.2 ≠ db →
     s_authed s = true ∧ is_Some (current_user s users) ∧ m = POST)
  ∧ (∀ m booking_id f db,
       (edit_booking_route m s users booking_id f db).1.2 ≠ db →
       s_authed s = true ∧ is_Some (current_user s users) ∧ m = POST)
  ∧ (∀ series_id db,
       (delete_series_route s users series_id db).1.2 ≠ db →
       s_authed s = true ∧ is_Some (current_user s users))
  ∧ (∀ booking_id db,
       (delete_booking_route s booking_id db).1.2 ≠ db → s_authed s = true)
  ∧ (s_authed s = true → current_user s users = None →
     ∀ m fresh f booking_id series_id db,
       new_booking_route m s users fresh f db = (no_session, db, SessionExpired)
       ∧ edit_booking_route m s users booking_id f db = (no_session, db, SessionExpired)
       ∧ delete_series_route s users series_id db = (no_session, db, SessionExpired)).
Proof.
  split_and!.
  - intros m fresh f db. unfold new_booking_route.
    destruct (logged_in s users) as [[s' r]|me] eqn:Hlog; [done|].
    apply logged_in_inr in Hlog as (? & -> & _). destruct m; [done|]. by eauto.
  - intros m booking_id f db. unfold edit_booking_route.
    destruct (logged_in s users) as [[s' r]|me] eqn:Hlog; [done|].
    apply logged_in_inr in Hlog as (? & -> & _). destruct m; [|by eauto].
    by destruct (get booking_id db).
  - intros series_id db. unfold delete_series_route.
    destruct (logged_in s users) as [[s' r]|me] eqn:Hlog; [done|].
    apply logged_in_inr in Hlog as (? & -> & _). by eauto.
  - intros booking_id db. unfold delete_booking_route. by destruct (s_authed s).
  - intros Hauthed Hnone m fresh f booking_id series_id db.
    unfold new_booking_route, edit_booking_route, delete_series_route, logged_in.
    by rewrite Hauthed, Hnone.
Qed.

(** X18: every booking written through /book/new is owned by the account
    the session names: whatever the request, the rows it adds carry the
    session's username as their account. *)
Theorem created_bookings_owned_by_session m s users fresh f db :
  ∃ new_rows,
    rows (new_booking_route m s users fresh f db).1.2 = rows db ++ new_rows
    ∧ Forall (λ r, s_user s = Some (b_account r)) new_rows.
Proof.
  unfold new_booking_route.
  destruct (logged_in s users) as [[s' r]|me] eqn:Hlog.
  { exists []. by rewrite app_nil_r. }
  destruct m; [exists []; by rewrite app_nil_r|].
  apply logged_in_inr in Hlog as (_ & _ & Huser).
  destruct (new_booking_cases (u_username me) fresh f db)
    as [Hsame|(room & d & st & et & dates & Hlt & Hslot & Hdates)].
  { exists []. destruct (new_booking _ _ _ _) as [db' r]. simpl in *. subst db'.
    by rewrite app_nil_r. }
  destruct (new_booking_valid (u_username me) fresh f db _ _ _ _ Hslot Hdates)
    as (new_rows & -> & Hbuilt).
  exists new_rows. split; [done|]. simpl in Hbuilt. clear -Hbuilt Huser.
  induction Hbuilt as [|d' r ? ? Hocc _ IH]; constructor; [|done].
  destruct Hocc as (_ & _ & -> & _). done.
Qed.

(** ** The maps of the templates *)

Lemma account_map_lookup (value : User → string) users (m : gmap string string) uname :
  foldl (λ m u, <[u_username u := value u]> m) m users !! uname
  = match last (filter (λ u, u_username u = uname) users) with
    | Some u => Some (value u)
    | None => m !! uname
    end.
Proof.
  revert m. induction users as [|u users IH]; intros m; [done|]. simpl.
  rewrite IH, filter_cons. destruct (decide (u_username u = uname)) as [<-|Hne].
  - destruct (filter _ users) as [|u' l] eqn:Hl.
    + simpl. by rewrite lookup_insert_eq.
    + rewrite last_cons_cons.
      destruct (last (u' :: l)) as [x|] eqn:Hlast; [done|]. by apply last_None in Hlast.
  - destruct (last _); [done|]. by rewrite lookup_insert_ne.
Qed.

(** X19: account_colors_map and account_display_map have exactly the
    usernames of the table as keys, and under each username the colour and
    the display name of the last row with that username; with usernames
    unique that is the account's own row. *)
Theorem account_maps_lookup users :
  (∀ uname, account_colors_map users !! uname
            = u_color <$> last (filter (λ u, u_username u = uname) users))
  ∧ (∀ uname, account_display_map users !! uname
              = u_display_name <$> last (filter (λ u, u_username u = uname) users))
  ∧ (∀ uname, is_Some (account_colors_map users !! uname) ↔ uname ∈ u_username <$> users)
  ∧ (unique_usernames users →
     ∀ u, u ∈ users →
          account_colors_map users !! u_username u = Some (u_color u)
          ∧ account_display_map users !! u_username u = Some (u_display_name u)).
Proof.
  assert (Hc : ∀ uname, account_colors_map users !! uname
                        = u_color <$> last (filter (λ u, u_username u = uname) users)).
  { intros uname. unfold account_colors_map. rewrite account_map_lookup.
    by destruct (last _). }
  assert (Hd : ∀ uname, account_display_map users !! uname
                 = u_display_name <$> last (filter (λ u, u_username u = uname) users)).
  { intros uname. unfold account_display_map. rewrite account_map_lookup.
    by destruct (last _). }
  split; [done|]. split; [done|]. split.
  - intros uname. rewrite Hc, <-find_user_is_Some. unfold find_user, first.
    destruct (filter _ users) as [|u l]; simpl.
    + split; by intros [? ?].
    + split; [by eauto|]. intros _. apply fmap_is_Some, last_is_Some. done.
  - intros Huniq u Hu.
    assert (filter (λ u', u_username u' = u_username u) users = [u]) as Hone.
    { unfold unique_usernames in Huniq. clear Hc Hd.
      induction users as [|u' users IH]; [by apply elem_of_nil in Hu|].
      rewrite fmap_cons in Huniq. apply NoDup_cons in Huniq as [Hfresh Huniq].
      rewrite filter_cons. apply elem_of_cons in Hu as [->|Hu].
      - rewrite decide_True by done. f_equal. apply filter_none.
        intros u'' Hu'' Heq. apply Hfresh, list_elem_of_fmap. by exists u''.
      - rewrite decide_False; [by apply IH|].
        intros Heq. apply Hfresh, list_elem_of_fmap. by exists u. }
    by rewrite Hc, Hd, Hone.
Qed.

(* a first run with two passwords set, one empty and one missing: two
   accounts are seeded, and the password of one of them logs in *)
Example seed_and_login_sample :
  u_username <$> seed_users_from_env sample_hash sample_env []
  = ["universiteit_maastricht"; "mumc"]%string
  ∧ (login sample_hash sample_check sample_env "mumc" "mumc-secret" no_session []).2 = true
  ∧ (login sample_hash sample_check sample_env "mumc" "um-secret" no_session []).2 = false
  ∧ (login sample_hash sample_check sample_env "mondriaan_heerlen" EmptyString no_session []).2
    = false
  ∧ seed_users_from_env sample_hash sample_env sample_users
    = sample_users
      ++ [mkUser 2 "universiteit_maastricht" "Universiteit Maastricht" "#1e88e5"
                 (sample_hash "um-secret")]%string.
Proof. by vm_compute. Qed.

(** ** Which requests create *)

Lemma parse_slot_outcome f bad :
  (¬ (∃ room, f_room f = Some room ∧ room ∈ ROOMS) ∧ parse_slot f bad = reject bad)
  ∨ ((∃ room, f_room f = Some room ∧ room ∈ ROOMS)
     ∧ ((∃ r, parse_slot f bad = reject r
              ∧ (r = MissingFields ∨ r = BadDateOrTime ∨ r = EndNotAfterStart)
              ∧ ¬ (f_title f ≠ EmptyString
                   ∧ ∃ d st et, f_date f = Parsed d ∧ f_start_time f = Parsed st
                                ∧ f_end_time f = Parsed et ∧ st < et))
        ∨ (∃ room d st et,
             parse_slot f bad = pass (room, combine d st, combine d et)
             ∧ f_title f ≠ EmptyString ∧ f_date f = Parsed d
             ∧ f_start_time f = Parsed st ∧ f_end_time f = Parsed et ∧ st < et))).
Proof.
  unfold parse_slot, andthen, require, pass, reject.
  destruct (f_room f) as [room|]; [|left; split; [by intros (? & [=] & _)|done]].
  case_decide as Hroom; [|left; split; [by intros (? & [= <-] & ?)|done]].
  right. split; [by exists room|].
  case_decide as Hgiven.
  - destruct Hgiven as (Htitle & Hd & Hs & He).
    destruct (f_date f) as [| |d]; [done| |];
      [left; eexists; split; [done|]; split; [tauto|]; by intros (_ & ? & ? & ? & [=] & _)|].
    destruct (f_start_time f) as [| |st]; [done| |];
      [left; eexists; split; [done|]; split; [tauto|]; by intros (_ & ? & ? & ? & _ & [=] & _)|].
    destruct (f_end_time f) as [| |et]; [done| |];
      [left; eexists; split; [done|]; split; [tauto|];
       by intros (_ & ? & ? & ? & _ & _ & [=] & _)|].
    case_decide as Hle.
    + right. exists room, d, st, et. split_and!; try done.
      by apply dt_not_le, dt_lt_same_day in Hle.
    + left. eexists. split; [done|]. split; [tauto|].
      intros (_ & d' & st' & et' & [= <-] & [= <-] & [= <-] & Hlt).
      unfold dt_le in Hle. simpl in Hle. lia.
  - left. eexists. split; [done|]. split; [tauto|].
    intros (Htitle & d & st & et & Hd & Hs & He & _). apply Hgiven.
    rewrite Hd, Hs, He. done.
Qed.

Lemma int_set_is_Some repeat_days :
  is_Some (int_set repeat_days) ↔ Forall is_Some repeat_days.
Proof.
  unfold int_set. rewrite fmap_is_Some, mapM_is_Some. done.
Qed.

(* the three ways the candidate list ends: the flash for a bad repeat part,
   the uncaught OverflowError at the end of the calendar, or the list *)
Lemma booking_dates_outcome f base_date :
  date_min ≤ base_date →
  (booking_dates f base_date = reject BadRepeatEnd
   ∧ ¬ (f_repeat_days f ≠ [] → given (f_repeat_end f) →
        (∃ e, f_repeat_end f = Parsed e) ∧ Forall is_Some (f_repeat_days f)))
  ∨ (booking_dates f base_date = reject ServerError
     ∧ f_repeat_days f ≠ [] ∧ Forall is_Some (f_repeat_days f)
     ∧ ∃ e, f_repeat_end f = Parsed e ∧ (date_max ≤ base_date ∨ date_max ≤ e))
  ∨ ((∃ dates, booking_dates f base_date = pass dates)
     ∧ (f_repeat_days f ≠ [] → given (f_repeat_end f) →
        (∃ e, f_repeat_end f = Parsed e ∧ e < date_max) ∧ Forall is_Some (f_repeat_days f)
        ∧ base_date < date_max)).
Proof.
  intros Hbase.
  destruct (decide (f_repeat_days f ≠ [] ∧ given (f_repeat_end f))) as [[Hdays Hend]|Hrep].
  - destruct (f_repeat_end f) as [| |e] eqn:He; [done| |].
    { left. split; [|intros H; by destruct (H Hdays Hend) as [[? [=]] _]].
      unfold booking_dates. rewrite He. by rewrite decide_True. }
    destruct (int_set (f_repeat_days f)) as [W|] eqn:HW.
    + assert (Forall is_Some (f_repeat_days f)) as Hall
        by (apply int_set_is_Some; by rewrite HW).
      destruct (decide (date_max ≤ base_date ∨ date_max ≤ e)) as [Hmax|Hlt].
      * right; left. split; [by eapply booking_dates_raises|].
        split; [done|]. split; [done|]. by exists e.
      * right; right. split.
        -- eexists. apply (booking_dates_returns f base_date W e); (done || lia).
        -- intros _ _. split; [exists e; split; [done|lia]|]. split; [done|lia].
    + left. split.
      * unfold booking_dates. rewrite He, HW. by rewrite decide_True.
      * intros H. destruct (H Hdays Hend) as [_ Hall].
        apply int_set_is_Some in Hall. rewrite HW in Hall. by destruct Hall.
  - right; right. split.
    + exists [base_date]. unfold booking_dates. by rewrite decide_False.
    + intros ? ?. destruct Hrep. done.
Qed.

(** X20: for a form whose date is a date of the calendar, POST /book/new
    answers with a creation count exactly when the room is one of ROOMS, the
    title is not empty, date and both times parse with the end time after
    the start time, and a repeat part, if both its days and its end are
    given, has an end date that parses and days that are all integers, with
    the date and the repeat end both before 9999-12-31; with such a repeat
    part and the date or the repeat end on 9999-12-31 (or later) it fails
    with a server error; it answers 'Ongeldige ruimte.' exactly when the
    room is not one of ROOMS, whatever else is wrong; and whenever it does
    not answer with a count, the table is left as it was. *)
Theorem new_booking_creates_iff_valid me fresh f db :
  (∀ d, f_date f = Parsed d → date_min ≤ d) →
  ((∃ n skipped, (new_booking me fresh f db).2 = Created n skipped)
   ↔ (∃ room, f_room f = Some room ∧ room ∈ ROOMS)
     ∧ (f_title f ≠ EmptyString
        ∧ ∃ d st et, f_date f = Parsed d ∧ f_start_time f = Parsed st
                     ∧ f_end_time f = Parsed et ∧ st < et)
     ∧ (f_repeat_days f ≠ [] → given (f_repeat_end f) →
        (∃ e, f_repeat_end f = Parsed e ∧ e < date_max)
        ∧ Forall is_Some (f_repeat_days f)
        ∧ ∀ d, f_date f = Parsed d → d < date_max))
  ∧ ((new_booking me fresh f db).2 = ServerError
     ↔ (∃ room, f_room f = Some room ∧ room ∈ ROOMS)
       ∧ f_title f ≠ EmptyString
       ∧ (∃ d st et e, f_date f = Parsed d ∧ f_start_time f = Parsed st
                       ∧ f_end_time f = Parsed et ∧ st < et
                       ∧ f_repeat_end f = Parsed e ∧ (date_max ≤ d ∨ date_max ≤ e))
       ∧ f_repeat_days f ≠ [] ∧ Forall is_Some (f_repeat_days f))
  ∧ ((new_booking me fresh f db).2 = InvalidRoom
     ↔ ¬ ∃ room, f_room f = Some room ∧ room ∈ ROOMS)
  ∧ ((new_booking me fresh f db).1 = db
     ∨ ∃ n skipped, (new_booking me fresh f db).2 = Created n skipped).
Proof.
  intros Hdate. unfold new_booking.
  destruct (parse_slot_outcome f InvalidRoom)
    as [[Hroom ->]|[Hroom [(r & -> & Hr & Hbad)|(room & d & st & et & -> & Hok)]]]; simpl.
  - split_and!; [| |done|by left].
    + split; [by intros (? & ? & [=])|tauto].
    + split; [done|tauto].
  - split_and!; [| | |by left].
    + split; [|tauto]. intros (? & ? & ->). by destruct Hr as [?|[?|?]].
    + split; [intros ->; by destruct Hr as [?|[?|?]]|].
      intros (_ & ? & (d & st & et & _ & ? & ? & ? & ? & _) & _).
      destruct Hbad. split; [done|]. by exists d, st, et.
    + split; [|done]. intros ->. by destruct Hr as [?|[?|?]].
  - destruct Hok as (Htitle & Hd & Hst & Het & Hlt).
    destruct (booking_dates_outcome f d (Hdate d Hd))
      as [[-> Hbad]|[(-> & Hdays & Hall & e & Hend & Hmax)|[[dates ->] Hrep]]]; simpl.
    + split_and!; [| | |by left].
      * split; [by intros (? & ? & [=])|]. intros (_ & _ & Hrep). destruct Hbad.
        intros H1 H2. destruct (Hrep H1 H2) as ((e & ? & _) & ? & _). split; [by exists e|done].
      * split; [done|]. intros (_ & _ & (? & ? & ? & e & _ & _ & _ & _ & He & _) & Hdays & Hall).
        destruct Hbad. intros _ _. split; [by exists e|done].
      * split; [done|tauto].
    + split_and!; [| | |by left].
      * split; [by intros (? & ? & [=])|]. intros (_ & _ & Hrep).
        destruct Hrep as ((e' & He' & ?) & _ & Hbase); [done|by rewrite Hend|].
        specialize (Hbase d Hd). assert (e' = e) as -> by congruence. lia.
      * split; [|done]. intros _. split; [done|]. split; [done|]. split; [|done].
        by exists d, st, et, e.
      * split; [done|tauto].
    + destruct (foldl _ _ dates) as [[db' created] conflicts]. simpl.
      split_and!; [| | |right; by eauto].
      * split; [|by eauto]. intros _. split; [done|]. split.
        -- split; [done|]. by exists d, st, et.
        -- intros H1 H2. destruct (Hrep H1 H2) as (? & ? & ?). split; [done|]. split; [done|].
           intros d' Hd'. assert (d' = d) as -> by congruence. done.
      * split; [done|].
        intros (_ & _ & (d' & ? & ? & e & Hd' & _ & _ & _ & He & Hmax) & Hdays & Hall).
        assert (d' = d) as -> by congruence.
        destruct Hrep as ((e' & He' & ?) & _ & Hbase); [done|by rewrite He|].
        assert (e' = e) as -> by congruence. lia.
      * split; [done|tauto].
Qed.

(* the weekly form is accepted; with its repeat end on 9999-12-31 the
   request fails with a server error and writes nothing *)
Lemma new_booking_creates_iff_valid_witness :
  (∃ n skipped, (new_booking "mumc" "f3a1-fresh" weekly_form db_one_off).2 = Created n skipped)
  ∧ new_booking "mumc" "f3a1-fresh" weekly_to_date_max_form db_one_off
    = (db_one_off, ServerError).
Proof.
  split.
  - apply (proj1 (new_booking_creates_iff_valid "mumc" "f3a1-fresh" weekly_form db_one_off
                    ltac:(by intros d [= <-]; vm_compute))).
    split; [exists wetlab; split; [done|by apply (bool_decide_unpack _); vm_compute]|].
    split.
    + split; [done|]. exists d2024_01_01, (hm 10 0), (hm 11 0). by vm_compute.
    + intros _ _. split; [exists (d2024_01_01 + 14); by vm_compute|].
      split; [by repeat constructor|]. intros d [= <-]. by vm_compute.
  - destruct (new_booking_creates_iff_valid "mumc" "f3a1-fresh" weekly_to_date_max_form
                db_one_off ltac:(by intros d [= <-]; vm_compute))
      as (Hcreated & Herror & _ & Hwrites).
    assert ((new_booking "mumc" "f3a1-fresh" weekly_to_date_max_form db_one_off).2
            = ServerError) as Hresp.
    { apply Herror.
      split; [exists wetlab; split; [done|by apply (bool_decide_unpack _); vm_compute]|].
      split; [done|]. split; [|split; [done|by repeat constructor]].
      exists d2024_01_01, (hm 10 0), (hm 11 0), date_max. split_and!; try done.
      by right. }
    destruct (new_booking "mumc" "f3a1-fresh" weekly_to_date_max_form db_one_off)
      as [db' resp].
    simpl in *. subst resp. f_equal. destruct Hwrites as [?|(? & ? & ?)]; done.
Defined.
